(** * Label-state consolidation of the HIL classification pipeline

    A shallow embedding of the master-label store of the pipeline
    ([core/labeling/label_manager.py], [core/utils/change_detection.py],
    [core/labeling/batch_processor.py]) and the properties of its
    fold-in, change-extraction, naming and batch-selection code. *)

From Stdlib Require Import ZArith Lia Ascii String.
From stdpp Require Import gmap strings list sorting pretty.

Local Open Scope string_scope.
Local Open Scope list_scope.

(** ** Records

    A record of a batch or of the master file is the JSON object
    [{"id": ..., "text_content": ..., <label>: 0/1, ...}].  The two fixed
    keys are fields; the label keys form a finite map, so that
    [item.get(category, 0)] is a lookup with a default and two records are
    equal exactly when Python's [==] on the dicts says so. *)

Record item := Item {
  item_id : string;            (* item['id'] *)
  text_content : string;       (* item['text_content'] *)
  labels : gmap string Z       (* the remaining keys *)
}.

#[global] Instance item_eq_dec : EqDecision item.
Proof. solve_decision. Defined.

(** [item.get(category, 0)] *)
Definition get_label (it : item) (category : string) : Z :=
  default 0%Z (labels it !! category).

Definition ids (l : list item) : list string := item_id <$> l.

(** ** Python dicts keyed by id

    [{item['id']: item for item in l}].  A Python dict keeps a key at the
    position of its first insertion and holds the value of its last
    assignment.  [dict_setitem] is [d[k] = v] on the ordered list of
    bindings. *)

Fixpoint dict_setitem (d : list (string * item)) (k : string) (v : item)
  : list (string * item) :=
  match d with
  | [] => [(k, v)]
  | (k', v') :: d' =>
      if decide (k' = k) then (k', v) :: d'
      else (k', v') :: dict_setitem d' k v
  end.

Definition dict_by_id (l : list item) : list (string * item) :=
  foldl (λ d it, dict_setitem d (item_id it) it) [] l.

Definition dict_values (d : list (string * item)) : list item := d.*2.

(** The same comprehension where only lookups are made
    ([original_lookup], [master_lookup]): the order is irrelevant and the
    last binding of an id wins. *)
Definition lookup_by_id (l : list item) : gmap string item :=
  foldl (λ m it, <[item_id it := it]> m) ∅ l.

(** ** Fold-in of [update_master_labels], lines 70-81

    [existing] is the content of the latest master file when one exists. *)

Definition dedupe (master : list item) : list item :=
  dict_values (dict_by_id master).

Definition merge_master (existing : option (list item)) (new : list item)
  : list item :=
  match existing with
  | Some master => dedupe (master ++ new)   (* master += new; dedupe *)
  | None => new                             (* master = new *)
  end.

(** ** Fold-in of [integrate_changes_with_master], lines 142-161 *)

(** [for i, item in enumerate(master_data): if item['id'] == record_id:
     master_data[i] = change; break] *)
Fixpoint replace_first (master_data : list item) (record_id : string)
    (change : item) : list item :=
  match master_data with
  | [] => []
  | it :: rest =>
      if decide (item_id it = record_id) then change :: rest
      else it :: replace_first rest record_id change
  end.

(** One turn of [for change in changes]; [master_lookup] is built once,
    before the loop, and is not updated by it. *)
Definition integrate_step (master_lookup : gmap string item)
    (master_data : list item) (change : item) : list item :=
  let record_id := item_id change in
  if decide (is_Some (master_lookup !! record_id))
  then replace_first master_data record_id change
  else master_data ++ [change].

Definition integrate_changes (master_data changes : list item) : list item :=
  foldl (integrate_step (lookup_by_id master_data)) master_data changes.

(** ** Timestamps and file names

    [pd.Timestamp.now()] is a wall-clock reading.  Its fields are natural
    numbers; [strftime] prints them zero-padded to a fixed width. *)

Local Open Scope N_scope.

Record timestamp := Timestamp {
  year : N; month : N; day : N;
  hour : N; minute : N; second : N;
  microsecond : N
}.

Definition digit (n : N) : ascii := ascii_of_N (48 + n mod 10).

(** [n] printed in [width] decimal digits, most significant first. *)
Fixpoint zero_pad (width : nat) (n : N) : string :=
  match width with
  | O => ""
  | S w => zero_pad w (n / 10) +:+ String (digit n) ""
  end.

(** [strftime('%Y%m%d_%H%M%S')] *)
Definition strftime_seconds (t : timestamp) : string :=
  zero_pad 4 (year t) +:+ zero_pad 2 (month t) +:+ zero_pad 2 (day t) +:+ "_" +:+
  zero_pad 2 (hour t) +:+ zero_pad 2 (minute t) +:+ zero_pad 2 (second t).

(** [strftime('%Y%m%d_%H%M%S_%f')] *)
Definition strftime_micro (t : timestamp) : string :=
  strftime_seconds t +:+ "_" +:+ zero_pad 6 (microsecond t).

(** The fields of a timestamp pandas can produce. *)
Definition valid_timestamp (t : timestamp) : Prop :=
  1000 ≤ year t ≤ 9999 ∧ 1 ≤ month t ≤ 12 ∧ 1 ≤ day t ≤ 31 ∧
  hour t < 24 ∧ minute t < 60 ∧ second t < 60 ∧ microsecond t < 1000000.

(** Chronological order of two clock readings: lexicographic on the
    fields, most significant first. *)
Definition clock_key (t : timestamp) : list N :=
  [year t; month t; day t; hour t; minute t; second t; microsecond t].

Fixpoint lex_lt (a b : list N) : bool :=
  match a, b with
  | x :: a', y :: b' => (x <? y) || ((x =? y) && lex_lt a' b')
  | [], _ :: _ => true
  | _, _ => false
  end.

Definition earlier (t1 t2 : timestamp) : bool :=
  lex_lt (clock_key t1) (clock_key t2).

(** Two readings fall in the same clock second. *)
Definition same_second (t1 t2 : timestamp) : Prop :=
  year t1 = year t2 ∧ month t1 = month t2 ∧ day t1 = day t2 ∧
  hour t1 = hour t2 ∧ minute t1 = minute t2 ∧ second t1 = second t2.

Local Close Scope N_scope.

(** [f"TOTAL_MANUAL_LABEL_AT-{timestamp}_TOTAL_SAMPLE_SIZE_{total_samples}.json"];
    file names are relative to [PATHS['manual_master']]. *)
Definition master_filename (stamp : string) (total_samples : nat) : string :=
  "TOTAL_MANUAL_LABEL_AT-" +:+ stamp +:+ "_TOTAL_SAMPLE_SIZE_" +:+
  pretty total_samples +:+ ".json".

(** [str.upper] and [str.replace(':', '_')] on the ASCII range. *)
Definition upper_ascii (c : ascii) : ascii :=
  let n := nat_of_ascii c in
  if (97 <=? n)%nat && (n <=? 122)%nat then ascii_of_nat (n - 32) else c.

Fixpoint upper (s : string) : string :=
  match s with
  | "" => ""
  | String c s' => String (upper_ascii c) (upper s')
  end.

Fixpoint replace_colon (s : string) : string :=
  match s with
  | "" => ""
  | String c s' =>
      String (if decide (c = ":"%char) then "_"%char else c) (replace_colon s')
  end.

(** The batch artifact name of [process_batch_for_labeling], lines 153-155. *)
Definition batch_filename (selection_method : string) (now : timestamp)
    (max_examples batch_size : Z) (model : string) : string :=
  "MANUAL_LABEL_" +:+ upper selection_method +:+ "_AT-" +:+ strftime_seconds now +:+
  "_NUM_EXAMPLES_IN_PROMPT_" +:+ pretty max_examples +:+
  "_SAMPLE_SIZE_" +:+ pretty batch_size +:+
  "_MODEL-" +:+ replace_colon model +:+ "_.json".

(** [sorted(files)[-1]]: Python orders strings by code point, which on
    these ASCII names is [String.compare]. *)
Definition sorted (files : list string) : list string :=
  merge_sort String.le files.

Definition latest_of (files : list string) : option string :=
  last (sorted files).

(** ** The master directory and the effects on it

    The state is the set of files of [PATHS['manual_master']] that match
    [TOTAL_MANUAL_LABEL_AT-*_TOTAL_SAMPLE_SIZE_*.json] (every name the code
    writes there matches).  A file whose write did not complete holds no
    JSON document.  [seen] lists the directory states a reader could have
    met, most recent first. *)

Inductive content :=
  | Json (data : list item)
  | Truncated.

Inductive exn :=
  FileNotFoundError | JSONDecodeError | OSError | ValueError | OverflowError.

Record world := World {
  files : gmap string content;
  seen : list (gmap string content)
}.

Inductive result (A : Type) :=
  | Ok (a : A)
  | Raise (e : exn).
Arguments Ok {A} a.
Arguments Raise {A} e.

Definition io (A : Type) : Type := world → result A * world.

#[global] Instance io_ret : MRet io := λ A a w, (Ok a, w).
#[global] Instance io_bind : MBind io := λ A B k m w,
  match m w with
  | (Ok a, w') => k a w'
  | (Raise e, w') => (Raise e, w')
  end.

Definition raise {A} (e : exn) : io A := λ w, (Raise e, w).

(** [try: body except Exception: return fallback] *)
Definition try_except {A} (body : io A) (fallback : A) : io A :=
  λ w, match body w with
       | (Ok a, w') => (Ok a, w')
       | (Raise _, w') => (Ok fallback, w')
       end.

Definition set_files (fs : gmap string content) : io unit :=
  λ w, (Ok tt, World fs (fs :: seen w)).

(** [glob.glob(master_pattern)] *)
Definition glob_master : io (list string) :=
  λ w, (Ok (map_to_list (files w)).*1, w).

(** [os.path.exists] *)
Definition path_exists (f : string) : io bool :=
  λ w, (Ok (bool_decide (is_Some (files w !! f))), w).

(** [json.load(open(f))] *)
Definition load_json (f : string) : io (list item) :=
  λ w, match files w !! f with
       | Some (Json data) => (Ok data, w)
       | Some Truncated => (Raise JSONDecodeError, w)
       | None => (Raise FileNotFoundError, w)
       end.

(** What happens to a write: it completes, it fails before the file is
    opened, or it fails after [open(f, 'w')] has created or emptied it. *)
Inductive disk := Completes | FailsAtOpen | FailsMidWrite.

(** [json.dump(data, open(f, 'w'))], also [save_json]. *)
Definition dump_json (d : disk) (data : list item) (f : string) : io unit :=
  match d with
  | Completes => λ w, set_files (<[f := Json data]> (files w)) w
  | FailsAtOpen => raise OSError
  | FailsMidWrite =>
      λ w, match set_files (<[f := Truncated]> (files w)) w with
           | (_, w') => (Raise OSError, w')
           end
  end.

(** [os.remove] *)
Definition os_remove (f : string) : io unit :=
  λ w, match files w !! f with
       | Some _ => set_files (delete f (files w)) w
       | None => (Raise FileNotFoundError, w)
       end.

Fixpoint for_each {A} (l : list A) (body : A → io unit) : io unit :=
  match l with
  | [] => mret tt
  | x :: l' => body x ;; for_each l' body
  end.

(** ** [update_master_labels], lines 60-103

    [new] is the loaded batch; [now1] and [now2] are the clock readings of
    lines 85 and 94; [d] is the fate of the write of line 99. *)
Definition update_master_labels (new : list item) (now1 now2 : timestamp)
    (d : disk) : io (list item) :=
  existing_master_files ← glob_master ;
  master ← match latest_of existing_master_files with
           | Some latest_master_file =>
               master ← load_json latest_master_file ;
               mret (merge_master (Some master) new)
           | None => mret (merge_master None new)
           end ;
  let total_samples := length master in
  let base := master_filename (strftime_seconds now1) total_samples in
  taken ← path_exists base ;
  let master_json_file :=
    if taken : bool
    then master_filename (strftime_micro now2) total_samples
    else base in
  dump_json d master master_json_file ;;
  for_each existing_master_files os_remove ;;
  mret master.

(** ** [integrate_changes_with_master], lines 125-211 *)
Definition integrate_changes_with_master (changes : list item)
    (now : timestamp) (d : disk) : io (option string) :=
  try_except
    (existing_files ← glob_master ;
     match latest_of existing_files with
     | Some latest_file =>
         master_data ← load_json latest_file ;
         let master_data := integrate_changes master_data changes in
         let new_master_file :=
           master_filename (strftime_seconds now) (length master_data) in
         dump_json d master_data new_master_file ;;
         os_remove latest_file ;;
         mret (Some new_master_file)
     | None =>
         let new_master_file :=
           master_filename (strftime_seconds now) (length changes) in
         dump_json d changes new_master_file ;;
         mret (Some new_master_file)
     end)
    None.

(** [load_labeled_ids()], lines 23-41, with no file argument. *)
Definition load_labeled_ids : io (gset string) :=
  existing_master_files ← glob_master ;
  match latest_of existing_master_files with
  | Some labeled_json_file =>
      master_data ← load_json labeled_json_file ;
      mret (list_to_set (ids master_data))
  | None => mret ∅
  end.

(** The snapshot a reader resolves: the content of the latest file. *)
Definition current_snapshot (w : world) : option content :=
  f ← latest_of (map_to_list (files w)).*1; files w !! f.

Definition start (fs : gmap string content) : world := World fs [fs].

(** ** [detect_changes_from_excel], lines 32-83 *)

#[global] Instance result_ret : MRet result := λ A a, Ok a.
#[global] Instance result_bind : MBind result := λ A B k m,
  match m with
  | Ok a => k a
  | Raise e => Raise e
  end.

(** What [pd.read_excel] hands over for a cell.  A finite float is the
    fraction [num/den]. *)
Inductive cell :=
  | CellNaN                            (* empty cell: NaN, None, NaT *)
  | CellInt (z : Z)
  | CellFloat (num : Z) (den : positive)
  | CellInf
  | CellBool (b : bool)
  | CellStr (s : string).

Record excel_row := ExcelRow {
  row_id : string;                     (* str(row['id']) *)
  row_cells : gmap string cell         (* the other columns of the row *)
}.

(** [row.get(category, 0)] *)
Definition row_get (row : excel_row) (category : string) : cell :=
  default (CellInt 0) (row_cells row !! category).

(** [pd.notna] *)
Definition notna (c : cell) : bool :=
  match c with
  | CellNaN => false
  | _ => true
  end.

(** [int(str)] on ASCII text: surrounding white space, an optional sign,
    then decimal digits, single underscores allowed between digits. *)
Definition is_space (c : ascii) : bool :=
  let n := nat_of_ascii c in
  ((9 <=? n)%nat && (n <=? 13)%nat) || ((28 <=? n)%nat && (n <=? 32)%nat).

Definition is_digit (c : ascii) : bool :=
  let n := nat_of_ascii c in (48 <=? n)%nat && (n <=? 57)%nat.

Fixpoint digits_value (s : list ascii) (acc : Z) (after_digit : bool)
  : option Z :=
  match s with
  | [] => if after_digit then Some acc else None
  | c :: s' =>
      if is_digit c
      then digits_value s' (10 * acc + Z.of_nat (nat_of_ascii c - 48))%Z true
      else if decide (c = "_"%char)
           then (if after_digit then digits_value s' acc false else None)
           else None
  end.

Fixpoint lstrip (s : list ascii) : list ascii :=
  match s with
  | c :: s' => if is_space c then lstrip s' else s
  | [] => []
  end.

Definition strip (s : list ascii) : list ascii :=
  reverse (lstrip (reverse (lstrip s))).

Definition int_of_str (s : string) : option Z :=
  match strip (list_ascii_of_string s) with
  | "-"%char :: ds => Z.opp <$> digits_value ds 0 false
  | "+"%char :: ds => digits_value ds 0 false
  | ds => digits_value ds 0 false
  end.

(** [int(x)] *)
Definition int_of_cell (c : cell) : result Z :=
  match c with
  | CellInt z => Ok z
  | CellFloat num den => Ok (Z.quot num (Z.pos den))   (* truncation *)
  | CellBool b => Ok (if b then 1 else 0)%Z
  | CellStr s => match int_of_str s with
                 | Some z => Ok z
                 | None => Raise ValueError
                 end
  | CellInf => Raise OverflowError
  | CellNaN => Raise ValueError
  end.

(** [int(row.get(category, 0)) if pd.notna(row.get(category, 0)) else 0] *)
Definition modified_value (row : excel_row) (category : string) : result Z :=
  if notna (row_get row category) then int_of_cell (row_get row category)
  else Ok 0%Z.

(** The body of [for category in ALL_LABELS], on the pair
    [(updated_record, has_changes)]. *)
Definition check_category (original_record : item) (row : excel_row)
    (st : gmap string Z * bool) (category : string)
  : result (gmap string Z * bool) :=
  let original_value := get_label original_record category in
  v ← modified_value row category;
  mret (<[category := v]> st.1, st.2 || bool_decide (original_value ≠ v)).

Fixpoint foldM {A B} (f : A → B → result A) (a : A) (l : list B) : result A :=
  match l with
  | [] => Ok a
  | x :: l' => a' ← f a x; foldM f a' l'
  end.

(** The body of [for _, row in modified_df.iterrows()]. *)
Definition detect_row (ALL_LABELS : list string)
    (original_lookup : gmap string item)
    (changes : list item) (row : excel_row) : result (list item) :=
  let record_id := row_id row in
  match original_lookup !! record_id with
  | None => Ok changes                                        (* continue *)
  | Some original_record =>
      st ← foldM (check_category original_record row) (∅, false) ALL_LABELS;
      let updated_record := Item record_id (text_content original_record) st.1 in
      if st.2 : bool then Ok (changes ++ [updated_record])%list else Ok changes
  end.

Definition detect_changes_from_excel (ALL_LABELS : list string)
    (original_data : list item) (modified_df : list excel_row)
  : result (list item) :=
  let original_lookup := lookup_by_id original_data in
  foldM (detect_row ALL_LABELS original_lookup) [] modified_df.

(** ** [select_batch_by_length], lines 14-29

    The frame carries the index [0, 1, 2, ...] that
    [consolidate_data] gives it ([reset_index]); a row of a filtered frame
    keeps its index label. *)

Record df_row := DfRow {
  df_id : string;                      (* row['id'] *)
  df_text : string                     (* row['text_content'] *)
}.

#[global] Instance df_row_eq_dec : EqDecision df_row.
Proof. solve_decision. Defined.

Abbreviation frame := (list (nat * df_row)).

Definition data_frame (rows : list df_row) : frame :=
  imap (λ i r, (i, r)) rows.

(** [df[~df["id"].isin(labeled_ids)]] *)
Definition unlabeled_of (df : frame) (labeled_ids : gset string) : frame :=
  filter (λ ir, df_id ir.2 ∉ labeled_ids) df.

(** [unlabeled[text_column].str.len()]: a Series of (index label, value). *)
Definition str_len (df : frame) : list (nat * nat) :=
  (λ ir, (ir.1, String.length (df_text ir.2))) <$> df.

(** [Series.nlargest(n)] with the default [keep='first']: the entries in
    decreasing order of value, entries of equal value in their order of
    appearance, cut to the first [n]; nothing for [n <= 0]. *)
Fixpoint insert_desc (x : nat * nat) (l : list (nat * nat)) : list (nat * nat) :=
  match l with
  | [] => [x]
  | y :: l' => if (x.2 <? y.2)%nat then y :: insert_desc x l' else x :: y :: l'
  end.

Definition sort_desc (s : list (nat * nat)) : list (nat * nat) :=
  foldr insert_desc [] s.

Definition nlargest (n : Z) (s : list (nat * nat)) : list (nat * nat) :=
  take (Z.to_nat n) (sort_desc s).

(** [frame.loc[labels]]: the rows carrying each label, in the order of the
    labels. *)
Definition loc (df : frame) (labels : list nat) : frame :=
  labels ≫= (λ i, filter (λ ir, ir.1 = i) df).

Definition select_batch_by_length (df : frame) (labeled_ids : gset string)
    (batch_size : Z) : frame :=
  let unlabeled := unlabeled_of df labeled_ids in
  if decide (length unlabeled = 0) then []          (* pd.DataFrame() *)
  else
    let n := Z.min batch_size (Z.of_nat (length unlabeled)) in
    loc unlabeled (nlargest n (str_len unlabeled)).*1.

(** ** Python slices

    [l[start:]] and [l[:stop]] for an integer bound: a negative bound
    counts from the end, and every bound is clamped to the list. *)

Definition py_index (bound : Z) (len : nat) : nat :=
  if (bound <? 0)%Z then Z.to_nat (Z.of_nat len + bound)
  else Nat.min (Z.to_nat bound) len.

Definition slice_from {A} (start : Z) (l : list A) : list A :=
  drop (py_index start (length l)) l.

Definition slice_to {A} (stop : Z) (l : list A) : list A :=
  take (py_index stop (length l)) l.

(** ** The few-shot examples of [prompt_builder.py] *)

(** [if len(labeled_examples) > max_examples:
       labeled_examples = labeled_examples[-max_examples:]]
    (lines 29-30, 72-73, 105-106). *)
Definition limit_examples (max_examples : Z) (labeled_examples : list item)
  : list item :=
  if (max_examples <? Z.of_nat (length labeled_examples))%Z
  then slice_from (- max_examples) labeled_examples
  else labeled_examples.

(** The examples of [create_leave_one_out_system_message], lines 69-73. *)
Definition leave_one_out_examples (excluded_id : string) (max_examples : Z)
    (labeled_examples : list item) : list item :=
  limit_examples max_examples
    (filter (λ ex, item_id ex ≠ excluded_id) labeled_examples).

(** [example_labels] of lines 35-38: the labels of [ALL_LABELS] that the
    example has at 1. *)
Definition example_labels (ALL_LABELS : list string) (example : item)
  : list string :=
  filter (λ label, get_label example label = 1%Z) ALL_LABELS.

(** ** The training-example export, [label_manager.py] lines 112-120 and
    [_generate_jsonl_from_master]

    One line per record; the assistant part is
    [{k: int(item[k]) for k in ALL_LABELS}], and [item[k]] raises
    [KeyError] on a record without the label [k] ([None] here). *)
Definition assistant_labels (ALL_LABELS : list string) (it : item)
  : option (list (string * Z)) :=
  mapM (λ k, (λ v, (k, v)) <$> labels it !! k) ALL_LABELS.

Definition generate_jsonl (ALL_LABELS : list string) (master : list item)
  : option (list (string * list (string * Z))) :=
  mapM (λ it, (λ a, (text_content it, a)) <$> assistant_labels ALL_LABELS it)
       master.

(** ** [save_manual_changes] and [process_excel_changes] *)

(** [f"MANUAL_LABEL_EXCEL_AT-{timestamp}_SAMPLE_SIZE_{sample_size}.json"] *)
Definition changes_filename (now : timestamp) (sample_size : nat) : string :=
  "MANUAL_LABEL_EXCEL_AT-" +:+ strftime_seconds now +:+ "_SAMPLE_SIZE_" +:+
  pretty sample_size +:+ ".json".

(** [save_manual_changes(changes)], lines 86-102.  The file goes to the
    batches directory, which is not part of [world]: the write shows as
    its fate and the returned path. *)
Definition save_manual_changes (changes : list item) (now : timestamp)
    (d : disk) : io string :=
  match d with
  | Completes => mret (changes_filename now (length changes))
  | FailsAtOpen | FailsMidWrite => raise OSError
  end.

(** [process_excel_changes], lines 214-258, on the loaded original and
    sheet.  [now1] and [d1] belong to the write of the changes file,
    [now2] and [d2] to the write of the master. *)
Definition process_excel_changes (ALL_LABELS : list string)
    (original_data : list item) (modified_df : list excel_row)
    (integrate : bool) (now1 now2 : timestamp) (d1 d2 : disk)
  : io (option string * option string) :=
  try_except
    (match detect_changes_from_excel ALL_LABELS original_data modified_df with
     | Raise e => raise e
     | Ok changes =>
         if decide (changes = []) then mret (None, None)
         else
           changes_json_path ← save_manual_changes changes now1 d1;
           master_file_path ←
             (if integrate
              then integrate_changes_with_master changes now2 d2
              else mret None);
           mret (Some changes_json_path, master_file_path)
     end)
    (None, None).

(** ** [cleanup_old_files], [file_ops.py] lines 10-33 *)

(** [sub in s] *)
Fixpoint contains (sub s : string) : bool :=
  String.prefix sub s ||
  match s with
  | "" => false
  | String _ s' => contains sub s'
  end.

(** [f.startswith('MANUAL_LABEL_') and '_AT-' in f] *)
Definition is_to_label_file (f : string) : bool :=
  String.prefix "MANUAL_LABEL_" f && contains "_AT-" f.

(** The files that [cleanup_old_files(keep_latest)] removes from a
    batches directory with the given listing, in the order of removal;
    [None] is a directory that does not exist. *)
Definition cleanup_old_files (keep_latest : Z) (listing : option (list string))
  : list string :=
  match listing with
  | None => []
  | Some names =>
      let to_label_files := filter (λ f, is_to_label_file f) names in
      if (Z.of_nat (length to_label_files) <=? keep_latest)%Z then []
      else
        let sorted_files := sorted to_label_files in
        slice_to (- keep_latest) sorted_files
  end.

(** ** [select_batch_by_shortest], lines 32-47 *)





(** ** Vocabulary of the statements *)

(** [d[id] = c] on the list of values of a dict keyed by id. *)
Fixpoint upsert (l : list item) (c : item) : list item :=
  match l with
  | [] => [c]
  | it :: l' =>
      if decide (item_id it = item_id c) then c :: l'
      else it :: upsert l' c
  end.

Definition keyed (l : list item) : list (string * item) :=
  (λ it, (item_id it, it)) <$> l.

(** The record a batch puts in the place of [s]: the last record of the
    batch with the id of [s], or [s] itself when the batch has none. *)
Definition override (B : list item) (s : item) : item :=
  default s (lookup_by_id B !! item_id s).

(** The records of a batch whose id the master does not have. *)
Definition new_records (S B : list item) : list item :=
  filter (λ b, item_id b ∉ ids S) B.

(** The merge rule read record by record: for an id both have, the
    batch's record is the one in the result; a record of the master whose
    id the batch does not have is kept; a record of the batch whose id the
    master does not have is in the result. *)
Definition merged_record_by_record (S B R : list item) : Prop :=
  (∀ b, b ∈ B → item_id b ∈ ids S →
        b ∈ R ∧ ∀ r, r ∈ R → item_id r = item_id b → r = b) ∧
  (∀ s, s ∈ S → item_id s ∉ ids B → s ∈ R) ∧
  (∀ b, b ∈ B → item_id b ∉ ids S → b ∈ R).

(** Order and frame of a fold-in: untouched records stay at their index,
    touched records take the batch's record at their index, and the
    records with new ids follow the master's in batch order. *)
Definition order_and_frame_preserved (S B R : list item) : Prop :=
  (∀ n s, S !! n = Some s → item_id s ∉ ids B → R !! n = Some s) ∧
  (∀ n s b, S !! n = Some s → b ∈ B → item_id b = item_id s → R !! n = Some b) ∧
  drop (length S) R = new_records S B.

(** The master list of lines 70-81 in a given directory. *)
Definition merged_in (fs : gmap string content) (new : list item)
  : result (list item) :=
  match latest_of (map_to_list fs).*1 with
  | Some latest =>
      match fs !! latest with
      | Some (Json data) => Ok (merge_master (Some data) new)
      | Some Truncated => Raise JSONDecodeError
      | None => Raise FileNotFoundError
      end
  | None => Ok (merge_master None new)
  end.

(** The file name of lines 85-96. *)
Definition chosen_name (fs : gmap string content) (now1 now2 : timestamp)
    (master : list item) : string :=
  let base := master_filename (strftime_seconds now1) (length master) in
  if bool_decide (is_Some (fs !! base))
  then master_filename (strftime_micro now2) (length master) else base.

(** Uniqueness of batch names as the specification words it: two batches
    made at different instants get different names, whatever else they
    share. *)
Definition batch_names_never_collide : Prop :=
  ∀ selection_method max_examples batch_size model (t1 t2 : timestamp),
    t1 ≠ t2 →
    batch_filename selection_method t1 max_examples batch_size model ≠
    batch_filename selection_method t2 max_examples batch_size model.

(** *** Reading an edited export *)

(** The integer a label cell is read as, when it can be read. *)
Definition read_cell (c : cell) : option Z :=
  if notna c
  then match int_of_cell c with Ok z => Some z | Raise _ => None end
  else Some 0%Z.

Definition read_label (row : excel_row) (category : string) : option Z :=
  read_cell (row_get row category).

(** Every label cell of the row is blank, missing or numeric. *)
Definition row_readable (L : list string) (row : excel_row) : Prop :=
  Forall (λ c, is_Some (read_label row c)) L.

#[global] Instance row_readable_dec L row : Decision (row_readable L row).
Proof. unfold row_readable. apply _. Defined.

Definition row_value (row : excel_row) (category : string) : Z :=
  default 0%Z (read_label row category).

(** The label vectors of a row and of a record, in the order of
    [ALL_LABELS]. *)
Definition row_vector (L : list string) (row : excel_row) : list Z :=
  row_value row <$> L.

Definition original_vector (L : list string) (o : item) : list Z :=
  get_label o <$> L.

(** The map that gives each label of [L] its value under [f]. *)
Definition label_map (L : list string) (f : string → Z) : gmap string Z :=
  list_to_map ((λ c, (c, f c)) <$> L).

(** The change a row stands for: none when its id is unknown or its label
    vector is that of the original record; otherwise the record with the
    row's id, the original text and the row's label vector. *)
Definition expected_change (L : list string) (original : gmap string item)
    (row : excel_row) : option item :=
  o ← original !! row_id row;
  if decide (row_vector L row = original_vector L o) then None
  else Some (Item (row_id row) (text_content o) (label_map L (row_value row))).

(** The label columns of the sheet written by [convert_json_to_excel_rtl]
    (lines 66-88 of [excel_export.py]) as [pd.read_excel] returns them: one
    row per record, [record.get(category, 0)] in each label column. *)
Definition export_row (L : list string) (o : item) : excel_row :=
  ExcelRow (item_id o)
           (list_to_map ((λ c, (c, CellInt (get_label o c))) <$> L)).

Definition export_rows (L : list string) (O : list item) : list excel_row :=
  export_row L <$> O.



(** *** Selecting a batch *)




(** *** Order of snapshot names *)

(** The second of a clock reading. *)
Definition second_key (t : timestamp) : list N :=
  [year t; month t; day t; hour t; minute t; second t].

(** The two stamps a snapshot name can carry for a clock reading. *)
Definition stamp_of (t : timestamp) (stamp : string) : Prop :=
  stamp = strftime_seconds t ∨ stamp = strftime_micro t.

(** *** Complete records *)

(** A record that has a value for every label of [L]. *)
Definition complete (L : list string) (it : item) : Prop :=
  Forall (λ k, is_Some (labels it !! k)) L.

(** ** Sample records (two labels) *)

Definition lab (a b : Z) : gmap string Z := <["L1" := a]> (<["L2" := b]> ∅).
Definition rec (i : string) (a b : Z) : item := Item i ("text of " +:+ i) (lab a b).

(** Rows of a sheet with the label columns [L1] and [L2]. *)
Definition two_labels : list string := ["L1"; "L2"].
Definition sheet_row (i : string) (a b : cell) : excel_row :=
  ExcelRow i (<["L1" := a]> (<["L2" := b]> ∅)).

(** A record set of five texts. *)
Definition five_rows : list df_row :=
  [DfRow "a" "xx"; DfRow "b" "xxxx"; DfRow "c" "xxx"; DfRow "d" "xxxx";
   DfRow "e" "x"].

(** Clock readings: two in the second 10:43:33 of 2025-08-11, one in the
    next second. *)
Definition t_33_1 : timestamp := Timestamp 2025 8 11 10 43 33 100000.
Definition t_33_6 : timestamp := Timestamp 2025 8 11 10 43 33 600000.
Definition t_34 : timestamp := Timestamp 2025 8 11 10 43 34 250000.

Definition after {A} (m : io A) (w : world) : world := (m w).2.

(** * Properties *)

(** ** The scenario of the specification *)

Example scenario_fold_1 :
  merge_master None [rec "r1" 1 0; rec "r2" 0 1] = [rec "r1" 1 0; rec "r2" 0 1].
Proof. reflexivity. Qed.

Example scenario_fold_2 :
  merge_master (Some [rec "r1" 1 0; rec "r2" 0 1]) [rec "r2" 1 1; rec "r3" 0 0]
  = [rec "r1" 1 0; rec "r2" 1 1; rec "r3" 0 0].
Proof. vm_compute. reflexivity. Qed.

Example scenario_integrate :
  integrate_changes [rec "r1" 1 0; rec "r2" 0 1] [rec "r2" 1 1; rec "r3" 0 0]
  = [rec "r1" 1 0; rec "r2" 1 1; rec "r3" 0 0].
Proof. vm_compute. reflexivity. Qed.

(** ** Dicts keyed by id *)

Section dicts.
Implicit Types (l S B D : list item) (c r s b : item) (i : string).

Lemma dict_setitem_keyed l c :
  dict_setitem (keyed l) (item_id c) c = keyed (upsert l c).
Proof.
  induction l as [|it l IH]; simpl; [done|].
  destruct (decide (item_id it = item_id c)) as [->|]; simpl; [done|].
  by rewrite IH.
Qed.

Lemma dict_by_id_keyed l : dict_by_id l = keyed (foldl upsert [] l).
Proof.
  unfold dict_by_id. induction l as [|c l IH] using rev_ind; [done|].
  rewrite !foldl_snoc, IH. apply dict_setitem_keyed.
Qed.

Lemma dedupe_upsert l : dedupe l = foldl upsert [] l.
Proof.
  unfold dedupe, dict_values. rewrite dict_by_id_keyed. unfold keyed.
  rewrite <-list_fmap_compose. apply list_fmap_id.
Qed.

Lemma dedupe_snoc l c : dedupe (l ++ [c]) = upsert (dedupe l) c.
Proof. by rewrite !dedupe_upsert, foldl_snoc. Qed.

Lemma upsert_in l c :
  item_id c ∈ ids l → upsert l c = replace_first l (item_id c) c.
Proof.
  induction l as [|it l IH]; simpl; [by intros ?%elem_of_nil|].
  intros Hin. destruct (decide (item_id it = item_id c)); [done|].
  f_equal. apply IH. apply elem_of_cons in Hin as [?|?]; [congruence|done].
Qed.

Lemma upsert_notin l c : item_id c ∉ ids l → upsert l c = l ++ [c].
Proof.
  induction l as [|it l IH]; simpl; [done|].
  intros Hin. apply not_elem_of_cons in Hin as [? ?].
  destruct (decide (item_id it = item_id c)); [congruence|].
  by rewrite IH.
Qed.

Lemma ids_replace_first l c : ids (replace_first l (item_id c) c) = ids l.
Proof.
  induction l as [|it l IH]; simpl; [done|].
  destruct (decide (item_id it = item_id c)) as [->|]; simpl; [done|].
  by rewrite IH.
Qed.

Lemma ids_upsert l c :
  ids (upsert l c) = if decide (item_id c ∈ ids l) then ids l else ids l ++ [item_id c].
Proof.
  destruct (decide _) as [Hin|Hin].
  - by rewrite upsert_in, ids_replace_first.
  - rewrite upsert_notin by done. unfold ids. by rewrite fmap_app.
Qed.

Lemma NoDup_ids_upsert l c : NoDup (ids l) → NoDup (ids (upsert l c)).
Proof.
  intros Hl. rewrite ids_upsert. destruct (decide _); [done|].
  apply NoDup_app. split_and!; [done| |apply NoDup_singleton].
  intros x Hx ->%list_elem_of_singleton. done.
Qed.

Lemma NoDup_ids_foldl_upsert D B :
  NoDup (ids D) → NoDup (ids (foldl upsert D B)).
Proof.
  revert D. induction B as [|b B IH]; simpl; [done|].
  intros D HD. apply IH, NoDup_ids_upsert, HD.
Qed.

Lemma NoDup_ids_dedupe l : NoDup (ids (dedupe l)).
Proof. rewrite dedupe_upsert. apply NoDup_ids_foldl_upsert, NoDup_nil_2. Qed.

Lemma dedupe_unique l : NoDup (ids l) → dedupe l = l.
Proof.
  induction l as [|c l IH] using rev_ind; [done|].
  unfold ids. rewrite fmap_app, NoDup_app. intros (Hl & Hc & _).
  rewrite dedupe_snoc, IH by done. apply upsert_notin.
  intros Hin. apply (Hc _ Hin). simpl. apply list_elem_of_singleton. done.
Qed.

(** *** Lookups *)

Lemma lookup_by_id_snoc l c :
  lookup_by_id (l ++ [c]) = <[item_id c := c]> (lookup_by_id l).
Proof. unfold lookup_by_id. by rewrite foldl_snoc. Qed.

Lemma lookup_by_id_app S B i :
  lookup_by_id (S ++ B) !! i =
  match lookup_by_id B !! i with
  | Some b => Some b
  | None => lookup_by_id S !! i
  end.
Proof.
  induction B as [|c B IH] using rev_ind.
  - by rewrite app_nil_r.
  - rewrite app_assoc, !lookup_by_id_snoc.
    destruct (decide (item_id c = i)) as [<-|Hne].
    + by rewrite !lookup_insert_eq.
    + by rewrite !lookup_insert_ne.
Qed.

Lemma lookup_by_id_id l i r : lookup_by_id l !! i = Some r → item_id r = i.
Proof.
  revert r. induction l as [|c l IH] using rev_ind; intros r; [done|].
  rewrite lookup_by_id_snoc.
  destruct (decide (item_id c = i)) as [<-|Hne].
  - rewrite lookup_insert_eq. by intros [= ->].
  - rewrite lookup_insert_ne by done. apply IH.
Qed.

Lemma lookup_by_id_elem l i r : lookup_by_id l !! i = Some r → r ∈ l.
Proof.
  revert r. induction l as [|c l IH] using rev_ind; intros r; [done|].
  rewrite lookup_by_id_snoc, elem_of_app, list_elem_of_singleton.
  destruct (decide (item_id c = i)) as [<-|Hne].
  - rewrite lookup_insert_eq. intros [= ->]. by right.
  - rewrite lookup_insert_ne by done. intros ?%IH. by left.
Qed.

Lemma lookup_by_id_is_Some l i : is_Some (lookup_by_id l !! i) ↔ i ∈ ids l.
Proof.
  induction l as [|c l IH] using rev_ind.
  - unfold lookup_by_id; simpl. rewrite lookup_empty, elem_of_nil.
    split; [by intros [? ?]|done].
  - rewrite lookup_by_id_snoc. unfold ids in *.
    rewrite fmap_app, elem_of_app. simpl. rewrite list_elem_of_singleton.
    destruct (decide (item_id c = i)) as [<-|Hne].
    + rewrite lookup_insert_eq. split; [by right|by eexists].
    + rewrite lookup_insert_ne by done. rewrite IH. naive_solver.
Qed.

Lemma lookup_by_id_None l i : lookup_by_id l !! i = None ↔ i ∉ ids l.
Proof. rewrite <-lookup_by_id_is_Some, eq_None_not_Some. done. Qed.

Lemma lookup_by_id_unique l r :
  NoDup (ids l) → r ∈ l → lookup_by_id l !! item_id r = Some r.
Proof.
  induction l as [|c l IH] using rev_ind; [by intros _ ?%elem_of_nil|].
  unfold ids. rewrite fmap_app, NoDup_app. intros (Hl & Hc & _).
  rewrite lookup_by_id_snoc, elem_of_app, list_elem_of_singleton.
  intros [Hr| ->]; [|by rewrite lookup_insert_eq].
  rewrite lookup_insert_ne; [by apply IH|].
  intros Heq. apply (Hc (item_id r)).
  - apply list_elem_of_fmap. eauto.
  - simpl. rewrite Heq. apply list_elem_of_singleton. done.
Qed.

Lemma elem_of_upsert l c r :
  NoDup (ids l) →
  r ∈ upsert l c ↔ r = c ∨ (r ∈ l ∧ item_id r ≠ item_id c).
Proof.
  induction l as [|it l IH]; simpl.
  - intros _. rewrite list_elem_of_singleton, elem_of_nil. naive_solver.
  - intros [Hit Hl]%NoDup_cons.
    destruct (decide (item_id it = item_id c)) as [Heq|Hne].
    + rewrite !elem_of_cons. split; [|naive_solver].
      intros [->|Hr]; [by left|]. right. split; [by right|].
      intros Heq'. apply Hit. rewrite Heq, <-Heq'.
      apply list_elem_of_fmap. eauto.
    + rewrite !elem_of_cons, IH by done. naive_solver.
Qed.

(** A deduplicated list holds, for each id, the last record with it. *)
Lemma elem_of_dedupe l r :
  r ∈ dedupe l ↔ lookup_by_id l !! item_id r = Some r.
Proof.
  revert r. induction l as [|c l IH] using rev_ind; intros r.
  - unfold dedupe, lookup_by_id; simpl. rewrite lookup_empty, elem_of_nil.
    naive_solver.
  - rewrite dedupe_snoc, lookup_by_id_snoc.
    rewrite elem_of_upsert by apply NoDup_ids_dedupe. rewrite IH.
    destruct (decide (item_id c = item_id r)) as [Heq|Hne].
    + rewrite Heq, lookup_insert_eq. naive_solver.
    + rewrite lookup_insert_ne by done. naive_solver.
Qed.

Lemma ids_dedupe_elem l i : i ∈ ids (dedupe l) ↔ i ∈ ids l.
Proof.
  rewrite <-(lookup_by_id_is_Some l). unfold ids.
  rewrite list_elem_of_fmap. split.
  - intros (r & -> & Hr%elem_of_dedupe). eauto.
  - intros [r Hr]. exists r.
    pose proof (lookup_by_id_id _ _ _ Hr) as Hid. split; [done|].
    apply elem_of_dedupe. by rewrite Hid.
Qed.

(** *** The shape of a fold-in *)

Lemma item_id_override B s : item_id (override B s) = item_id s.
Proof.
  unfold override. destruct (lookup_by_id B !! item_id s) as [b|] eqn:Hb; [|done].
  simpl. by apply lookup_by_id_id in Hb.
Qed.

Lemma ids_override B D : ids (override B <$> D) = ids D.
Proof.
  unfold ids. rewrite <-list_fmap_compose. apply list_fmap_ext.
  intros ? s _. apply item_id_override.
Qed.

Lemma override_nil s : override [] s = s.
Proof. unfold override, lookup_by_id. simpl. by rewrite lookup_empty. Qed.

Lemma fmap_override_nil D : override [] <$> D = D.
Proof.
  induction D as [|d D IH]; [done|]. by rewrite fmap_cons, override_nil, IH.
Qed.

Lemma override_snoc_eq B b s :
  item_id s = item_id b → override (B ++ [b]) s = b.
Proof.
  intros Heq. unfold override. by rewrite lookup_by_id_snoc, Heq, lookup_insert_eq.
Qed.

Lemma override_snoc_ne B b s :
  item_id s ≠ item_id b → override (B ++ [b]) s = override B s.
Proof.
  intros Hne. unfold override. by rewrite lookup_by_id_snoc, lookup_insert_ne.
Qed.

Lemma upsert_app_l X Y c :
  item_id c ∈ ids X → upsert (X ++ Y) c = upsert X c ++ Y.
Proof.
  induction X as [|x X IH]; simpl; [by intros ?%elem_of_nil|].
  intros Hin. destruct (decide (item_id x = item_id c)); [done|].
  simpl. f_equal. apply IH. apply elem_of_cons in Hin as [?|?]; [congruence|done].
Qed.

Lemma upsert_app_r X Y c :
  item_id c ∉ ids X → upsert (X ++ Y) c = X ++ upsert Y c.
Proof.
  induction X as [|x X IH]; simpl; [done|].
  intros [? ?]%not_elem_of_cons.
  destruct (decide (item_id x = item_id c)); [congruence|].
  f_equal. by apply IH.
Qed.

Lemma upsert_override B D b :
  NoDup (ids D) → item_id b ∈ ids D →
  upsert (override B <$> D) b = override (B ++ [b]) <$> D.
Proof.
  induction D as [|d D IH]; simpl; [by intros _ ?%elem_of_nil|].
  intros [Hd HD]%NoDup_cons Hin. rewrite item_id_override.
  destruct (decide (item_id d = item_id b)) as [Heq|Hne].
  - rewrite (override_snoc_eq _ _ d) by done. f_equal.
    apply list_fmap_ext. intros ? s Hs%list_elem_of_lookup_2.
    symmetry. apply override_snoc_ne. intros Heq'. apply Hd.
    rewrite Heq, <-Heq'. apply list_elem_of_fmap. eauto.
  - rewrite (override_snoc_ne _ _ d) by done. f_equal. apply IH; [done|].
    apply elem_of_cons in Hin as [?|?]; [congruence|done].
Qed.

(** Folding a batch into a list of unique ids: the records of the list
    stay where they are, overridden by the last record of the batch with
    their id; the batch's new ids follow, deduplicated. *)
Lemma foldl_upsert_shape D B :
  NoDup (ids D) →
  foldl upsert D B = (override B <$> D) ++ dedupe (new_records D B).
Proof.
  intros HD. induction B as [|b B IH] using rev_ind.
  - simpl. by rewrite app_nil_r, fmap_override_nil.
  - rewrite foldl_snoc, IH. unfold new_records. rewrite filter_app.
    destruct (decide (item_id b ∈ ids D)) as [Hin|Hin].
    + rewrite upsert_app_l by (by rewrite ids_override).
      rewrite upsert_override by done.
      rewrite filter_cons_False by naive_solver. simpl.
      by rewrite app_nil_r.
    + rewrite upsert_app_r by (by rewrite ids_override).
      rewrite filter_cons_True by done. simpl.
      rewrite dedupe_snoc. f_equal.
      apply list_fmap_ext. intros ? s Hs%list_elem_of_lookup_2.
      symmetry. apply override_snoc_ne. intros Heq. apply Hin.
      rewrite <-Heq. apply list_elem_of_fmap. eauto.
Qed.

Lemma new_records_ids_ext S S' B :
  (∀ i, i ∈ ids S ↔ i ∈ ids S') → new_records S B = new_records S' B.
Proof.
  intros Hext. unfold new_records. apply list_filter_iff.
  intros b. by rewrite Hext.
Qed.

Lemma dedupe_app S B :
  dedupe (S ++ B) = (override B <$> dedupe S) ++ dedupe (new_records S B).
Proof.
  rewrite (dedupe_upsert (S ++ B)), foldl_app, <-dedupe_upsert.
  rewrite foldl_upsert_shape by apply NoDup_ids_dedupe.
  f_equal. f_equal. apply new_records_ids_ext, ids_dedupe_elem.
Qed.

(** The loop of [integrate_changes_with_master] on a master of unique
    ids: records of the master are overridden in place, every record of
    the batch with an id the master did not have is appended. *)
Lemma replace_first_app_l X Y c :
  item_id c ∈ ids X →
  replace_first (X ++ Y) (item_id c) c = replace_first X (item_id c) c ++ Y.
Proof.
  intros Hin. rewrite <-!upsert_in; [by apply upsert_app_l|done|].
  unfold ids. rewrite fmap_app, elem_of_app. by left.
Qed.

Lemma integrate_changes_shape S B :
  NoDup (ids S) →
  integrate_changes S B = (override B <$> S) ++ new_records S B.
Proof.
  intros HS. unfold integrate_changes.
  induction B as [|b B IH] using rev_ind.
  - simpl. by rewrite app_nil_r, fmap_override_nil.
  - rewrite foldl_snoc, IH. unfold integrate_step, new_records.
    rewrite filter_app.
    destruct (decide (is_Some _)) as [Hin%lookup_by_id_is_Some|Hin].
    + rewrite replace_first_app_l by (by rewrite ids_override).
      rewrite <-upsert_in by (by rewrite ids_override).
      rewrite upsert_override by done.
      rewrite filter_cons_False by naive_solver. simpl.
      by rewrite app_nil_r.
    + rewrite lookup_by_id_is_Some in Hin.
      rewrite filter_cons_True by done. simpl.
      rewrite <-app_assoc. f_equal.
      apply list_fmap_ext. intros ? s Hs%list_elem_of_lookup_2.
      symmetry. apply override_snoc_ne. intros Heq. apply Hin.
      rewrite <-Heq. apply list_elem_of_fmap. eauto.
Qed.
End dicts.

(** ** Fold-in: last write wins (C1) *)

Section fold_in.
Implicit Types (S B R : list item) (r s b : item) (i : string).

Lemma lookup_by_id_filter (P : string → Prop) `{!∀ i, Decision (P i)} B i :
  lookup_by_id (filter (λ b, P (item_id b)) B) !! i =
  if decide (P i) then lookup_by_id B !! i else None.
Proof.
  induction B as [|b B IH] using rev_ind.
  - unfold lookup_by_id; simpl. rewrite lookup_empty. by destruct (decide _).
  - rewrite filter_app, lookup_by_id_snoc.
    destruct (decide (P (item_id b))) as [Hb|Hb].
    + rewrite filter_cons_True by done. simpl. rewrite lookup_by_id_snoc.
      destruct (decide (item_id b = i)) as [<-|Hne].
      * rewrite !lookup_insert_eq. by rewrite decide_True.
      * by rewrite !lookup_insert_ne.
    + rewrite filter_cons_False by done. simpl. rewrite app_nil_r, IH.
      destruct (decide (P i)) as [Hi|Hi]; [|done].
      rewrite lookup_insert_ne; [done|]. intros Heq. apply Hb. by rewrite Heq.
Qed.

Lemma lookup_by_id_new_records S B i :
  i ∉ ids S → lookup_by_id (new_records S B) !! i = lookup_by_id B !! i.
Proof.
  intros Hi. unfold new_records.
  pose proof (lookup_by_id_filter (λ i, i ∉ ids S) B i) as Hf. simpl in Hf.
  rewrite Hf. by rewrite decide_True.
Qed.

Lemma NoDup_ids_filter (P : item → Prop) `{!∀ b, Decision (P b)} B :
  NoDup (ids B) → NoDup (ids (filter P B)).
Proof.
  induction B as [|b B IH]; [done|]. unfold ids in *. rewrite fmap_cons.
  intros [Hb HB]%NoDup_cons. rewrite filter_cons.
  destruct (decide (P b)); [|by apply IH].
  rewrite fmap_cons. apply NoDup_cons. split; [|by apply IH].
  intros (x & Hx & [_ Hin]%list_elem_of_filter)%list_elem_of_fmap.
  apply Hb, list_elem_of_fmap. eauto.
Qed.

(** The fold-in on lists without repeated ids, for both code paths. *)
Lemma merge_master_unique S B :
  NoDup (ids S) → NoDup (ids B) →
  merge_master (Some S) B = (override B <$> S) ++ new_records S B.
Proof.
  intros HS HB. simpl. rewrite dedupe_app, (dedupe_unique S) by done.
  f_equal. apply dedupe_unique, NoDup_ids_filter, HB.
Qed.

Lemma merged_record_by_record_unique S B :
  NoDup (ids S) → NoDup (ids B) →
  merged_record_by_record S B ((override B <$> S) ++ new_records S B).
Proof.
  intros HS HB. split_and!.
  - intros b Hb Hin. pose proof (lookup_by_id_unique _ _ HB Hb) as Hlk.
    apply list_elem_of_fmap in Hin as (s & Hid & Hs). split.
    + apply elem_of_app. left. apply list_elem_of_fmap. exists s.
      split; [|done]. unfold override. by rewrite <-Hid, Hlk.
    + intros r [Hr|Hr]%elem_of_app Heq.
      * apply list_elem_of_fmap in Hr as (s' & -> & Hs').
        rewrite item_id_override in Heq. unfold override. by rewrite Heq, Hlk.
      * apply list_elem_of_filter in Hr as [Hnew _]. exfalso. apply Hnew.
        rewrite Heq, Hid. apply list_elem_of_fmap. eauto.
  - intros s Hs Hnot. apply elem_of_app. left. apply list_elem_of_fmap.
    exists s. split; [|done]. unfold override.
    by apply lookup_by_id_None in Hnot as ->.
  - intros b Hb Hnew. apply elem_of_app. right.
    by apply list_elem_of_filter.
Qed.
End fold_in.

(** C1, as amended.  For every master snapshot [S] and batch [B] the
    fold-in of [update_master_labels] (a) puts, for each id of [B] that [S]
    has, the last record of [B] with that id in the result, as the only
    record with that id; (b) keeps, for each id of [S] that [B] does not
    have, the last record of [S] with that id, unchanged; (c) appends, for
    each id of [B] that [S] does not have, the last record of [B] with that
    id behind the master's records.  When neither [S] nor [B] repeats an id
    this is the rule record by record: the batch's record wins, untouched
    records are kept, new records are appended. *)
Theorem fold_in_last_write_wins (S B : list item) :
  let R := merge_master (Some S) B in
  (∀ i b, lookup_by_id B !! i = Some b → i ∈ ids S →
          b ∈ R ∧ ∀ r, r ∈ R → item_id r = i → r = b) ∧
  (∀ i s, lookup_by_id S !! i = Some s → i ∉ ids B → s ∈ R) ∧
  (∀ i b, lookup_by_id B !! i = Some b → i ∉ ids S →
          b ∈ drop (length (dedupe S)) R) ∧
  (NoDup (ids S) → NoDup (ids B) → merged_record_by_record S B R).
Proof.
  simpl. split_and!.
  - intros i b Hb _. pose proof (lookup_by_id_id _ _ _ Hb) as Hid.
    assert (lookup_by_id (S ++ B) !! i = Some b) as Hlk
      by (by rewrite lookup_by_id_app, Hb).
    split.
    + apply elem_of_dedupe. by rewrite Hid.
    + intros r Hr%elem_of_dedupe Heq. rewrite Heq, Hlk in Hr. by injection Hr.
  - intros i s Hs Hnot. pose proof (lookup_by_id_id _ _ _ Hs) as Hid.
    apply elem_of_dedupe. rewrite Hid, lookup_by_id_app.
    by apply lookup_by_id_None in Hnot as ->.
  - intros i b Hb Hnew. pose proof (lookup_by_id_id _ _ _ Hb) as Hid.
    rewrite dedupe_app, drop_app_length'; [|by rewrite length_fmap].
    apply elem_of_dedupe. by rewrite Hid, lookup_by_id_new_records.
  - intros HS HB. pose proof (merge_master_unique S B HS HB) as Heq.
    simpl in Heq. rewrite Heq. by apply merged_record_by_record_unique.
Qed.

Lemma fold_in_last_write_wins_witness :
  let S := [rec "r1" 1 0; rec "r2" 0 1] in
  let B := [rec "r2" 1 1; rec "r3" 0 0] in
  NoDup (ids S) ∧ NoDup (ids B) ∧
  merged_record_by_record S B (merge_master (Some S) B).
Proof.
  assert (NoDup (ids [rec "r1" 1 0; rec "r2" 0 1])) as HS
    by (compute_done).
  assert (NoDup (ids [rec "r2" 1 1; rec "r3" 0 0])) as HB
    by (compute_done).
  split_and!; [exact HS|exact HB|].
  exact (proj2 (proj2 (proj2 (fold_in_last_write_wins _ _))) HS HB).
Defined.

(** C1, as stated, fails on a batch that repeats an id: of two batch
    records with the new id [r3] only the last one reaches the snapshot. *)
Lemma fold_in_drops_repeated_batch_record :
  let S := [rec "r1" 1 0] in
  let B := [rec "r3" 0 0; rec "r3" 1 1] in
  merge_master (Some S) B = [rec "r1" 1 0; rec "r3" 1 1] ∧
  ¬ merged_record_by_record S B (merge_master (Some S) B).
Proof.
  assert (merge_master (Some [rec "r1" 1 0]) [rec "r3" 0 0; rec "r3" 1 1]
          = [rec "r1" 1 0; rec "r3" 1 1]) as Heq by (vm_compute; reflexivity).
  split; [exact Heq|]. simpl. intros (_ & _ & Hnew). simpl in Heq. rewrite Heq in Hnew.
  specialize (Hnew (rec "r3" 0 0)).
  assert (rec "r3" 0 0 ∈ [rec "r1" 1 0; rec "r3" 1 1]) as Hin.
  { apply Hnew.
    - apply elem_of_cons. by left.
    - compute_done. }
  revert Hin. compute_done.
Qed.

(** ** Fold-in: order and frame (C10) *)

Lemma order_and_frame_preserved_unique (S B : list item) :
  NoDup (ids B) →
  order_and_frame_preserved S B ((override B <$> S) ++ new_records S B).
Proof.
  intros HB. split_and!.
  - intros n s Hn Hnot. rewrite lookup_app_l.
    + rewrite list_lookup_fmap, Hn. simpl. unfold override.
      by apply lookup_by_id_None in Hnot as ->.
    + rewrite length_fmap. by eapply lookup_lt_Some.
  - intros n s b Hn Hb Heq. rewrite lookup_app_l.
    + rewrite list_lookup_fmap, Hn. simpl. unfold override.
      by rewrite <-Heq, (lookup_by_id_unique _ _ HB Hb).
    + rewrite length_fmap. by eapply lookup_lt_Some.
  - apply drop_app_length'. by rewrite length_fmap.
Qed.

(** C10, as amended.  When neither the master nor the batch repeats an id,
    both fold-in paths ([update_master_labels] and
    [integrate_changes_with_master]) leave every record whose id is not in
    the batch at its index with its content, put the batch's record at the
    index of a record whose id is in the batch, and append the records
    with new ids at the end in batch order. *)
Theorem fold_in_preserves_order_and_frame (S B : list item) :
  NoDup (ids S) → NoDup (ids B) →
  order_and_frame_preserved S B (merge_master (Some S) B) ∧
  order_and_frame_preserved S B (integrate_changes S B).
Proof.
  intros HS HB.
  rewrite merge_master_unique, integrate_changes_shape by done.
  split; by apply order_and_frame_preserved_unique.
Qed.

Lemma fold_in_preserves_order_and_frame_witness :
  let S := [rec "r1" 1 0; rec "r2" 0 1] in
  let B := [rec "r3" 0 0; rec "r2" 1 1; rec "r4" 1 0] in
  NoDup (ids S) ∧ NoDup (ids B) ∧
  order_and_frame_preserved S B (merge_master (Some S) B) ∧
  order_and_frame_preserved S B (integrate_changes S B).
Proof.
  assert (NoDup (ids [rec "r1" 1 0; rec "r2" 0 1])) as HS by compute_done.
  assert (NoDup (ids [rec "r3" 0 0; rec "r2" 1 1; rec "r4" 1 0])) as HB
    by compute_done.
  split_and!; [exact HS|exact HB|..];
    apply (fold_in_preserves_order_and_frame _ _ HS HB).
Defined.

(** C10, as stated, fails on a batch that repeats a new id: the snapshot
    of [update_master_labels] holds the id once, at the place of its first
    record and with the content of its last, so the appended part is not
    the batch's new records in batch order. *)
Lemma fold_in_reorders_repeated_batch_record :
  let S := [rec "r1" 1 0] in
  let B := [rec "r3" 0 0; rec "r4" 0 1; rec "r3" 1 1] in
  merge_master (Some S) B = [rec "r1" 1 0; rec "r3" 1 1; rec "r4" 0 1] ∧
  ¬ order_and_frame_preserved S B (merge_master (Some S) B).
Proof.
  assert (merge_master (Some [rec "r1" 1 0])
            [rec "r3" 0 0; rec "r4" 0 1; rec "r3" 1 1]
          = [rec "r1" 1 0; rec "r3" 1 1; rec "r4" 0 1]) as Heq
    by (vm_compute; reflexivity).
  split; [exact Heq|]. simpl. intros (_ & _ & Happ).
  simpl in Heq. rewrite Heq in Happ. revert Happ. compute_done.
Qed.

(** ** Fold-in: idempotence (C2) and unique ids (C3) *)

(** Where a master file exists, folding a batch in twice gives what
    folding it in once gives, whatever the two lists hold. *)
Lemma merge_master_idempotent_existing (S B : list item) :
  merge_master (Some (merge_master (Some S) B)) B = merge_master (Some S) B.
Proof.
  simpl. set (R := dedupe (S ++ B)).
  rewrite dedupe_upsert, foldl_app, <-dedupe_upsert.
  rewrite (dedupe_unique R) by apply NoDup_ids_dedupe.
  rewrite foldl_upsert_shape by apply NoDup_ids_dedupe.
  assert (new_records R B = []) as ->.
  { apply elem_of_nil_inv. intros b [Hnew Hb]%list_elem_of_filter.
    apply Hnew, ids_dedupe_elem.
    unfold ids. rewrite fmap_app, elem_of_app. right.
    apply list_elem_of_fmap. eauto. }
  assert (override B <$> R = R) as ->; [|by rewrite app_nil_r].
  rewrite <-(list_fmap_id R) at 2. apply list_fmap_ext.
  intros n r Hr%list_elem_of_lookup_2. unfold override. simpl.
  destruct (lookup_by_id B !! item_id r) as [b|] eqn:Hb; [simpl|done].
  apply elem_of_dedupe in Hr. rewrite lookup_by_id_app, Hb in Hr.
  by injection Hr.
Qed.

(** Where a master file exists, the snapshot of [update_master_labels]
    holds every id once. *)
Lemma merge_master_unique_ids_existing (S B : list item) :
  NoDup (ids (merge_master (Some S) B)).
Proof. apply NoDup_ids_dedupe. Qed.

(** On a master of unique ids and a batch of unique ids the loop of
    [integrate_changes_with_master] keeps the ids unique. *)
Lemma integrate_changes_unique_ids (S B : list item) :
  NoDup (ids S) → NoDup (ids B) → NoDup (ids (integrate_changes S B)).
Proof.
  intros HS HB. rewrite integrate_changes_shape, <-merge_master_unique by done.
  apply merge_master_unique_ids_existing.
Qed.

(** C2 at its failing input.  With no master file yet and a batch that
    holds the id [r1] twice, the first fold-in of [update_master_labels]
    stores the batch as it is and the second one deduplicates it: the
    snapshot after two fold-ins of the batch is not the snapshot after
    one. *)
Theorem fold_in_twice_from_empty_differs :
  let B := [rec "r1" 1 0; rec "r1" 0 1] in
  let w1 := after (update_master_labels B t_33_1 t_33_1 Completes) (start ∅) in
  let w2 := after (update_master_labels B t_34 t_34 Completes) w1 in
  current_snapshot w1 = Some (Json [rec "r1" 1 0; rec "r1" 0 1]) ∧
  current_snapshot w2 = Some (Json [rec "r1" 0 1]) ∧
  current_snapshot w2 ≠ current_snapshot w1.
Proof. vm_compute. split_and!; [reflexivity|reflexivity|discriminate]. Qed.

(** C3 at its failing inputs.  From the empty store, one fold-in of
    [update_master_labels] with a batch that holds [r1] twice leaves a
    snapshot with [r1] twice; on a snapshot of unique ids, one fold-in of
    [integrate_changes_with_master] with changes that hold the new id [r3]
    twice leaves a snapshot with [r3] twice. *)
Theorem fold_in_leaves_repeated_ids :
  let B := [rec "r1" 1 0; rec "r1" 0 1] in
  let w1 := after (update_master_labels B t_33_1 t_33_1 Completes) (start ∅) in
  let C := [rec "r3" 0 0; rec "r3" 1 1] in
  let w2 := after (update_master_labels [rec "r2" 0 1] t_33_1 t_33_1 Completes)
                  (start ∅) in
  let w3 := after (integrate_changes_with_master C t_34 Completes) w2 in
  (current_snapshot w1 = Some (Json B) ∧ ¬ NoDup (ids B)) ∧
  (current_snapshot w2 = Some (Json [rec "r2" 0 1]) ∧
   current_snapshot w3 = Some (Json ([rec "r2" 0 1] ++ C)) ∧
   ¬ NoDup (ids ([rec "r2" 0 1] ++ C))).
Proof.
  split_and!; try (vm_compute; reflexivity); compute_done.
Qed.

(** ** Snapshot replacement: write, then delete (C5) *)

Section write_then_delete.
Implicit Types (w : world) (fs st : gmap string content).

Lemma os_remove_keeps f target c w :
  f ≠ target → files w !! target = Some c →
  files (after (os_remove f) w) !! target = Some c ∧
  ∀ st, st ∈ seen (after (os_remove f) w) →
        st ∈ seen w ∨ st !! target = Some c.
Proof.
  intros Hne Ht. unfold after, os_remove, set_files.
  destruct (files w !! f); simpl.
  - rewrite lookup_delete_ne by done. split; [done|].
    intros st [->|?]%elem_of_cons; [right|by left].
    by rewrite lookup_delete_ne.
  - split; [done|]. by left.
Qed.

Lemma for_each_remove_keeps l target c w :
  target ∉ l → files w !! target = Some c →
  files (after (for_each l os_remove) w) !! target = Some c ∧
  ∀ st, st ∈ seen (after (for_each l os_remove) w) →
        st ∈ seen w ∨ st !! target = Some c.
Proof.
  revert w. induction l as [|f l IH]; intros w Hnot Ht.
  - split; [done|]. by left.
  - apply not_elem_of_cons in Hnot as [Hne Hnot].
    destruct (os_remove_keeps f target c w) as [Ht' Hseen']; [done..|].
    unfold after in *. simpl. unfold mbind, io_bind.
    destruct (os_remove f w) as [[[]|e] w'] eqn:Hrm; simpl in *.
    + destruct (IH w' Hnot Ht') as [Ht'' Hseen'']. split; [done|].
      intros st [Hst|Hst]%Hseen''; [|by right]. by apply Hseen'.
    + split; [done|]. exact Hseen'.
Qed.

Lemma for_each_remove_all l w :
  NoDup l → (∀ f, f ∈ l → is_Some (files w !! f)) →
  (for_each l os_remove w).1 = Ok tt ∧
  ∀ k, files (after (for_each l os_remove) w) !! k =
       if decide (k ∈ l) then None else files w !! k.
Proof.
  revert w. induction l as [|f l IH]; intros w Hnd Hin.
  - split; [done|]. intros k. by rewrite decide_False by apply not_elem_of_nil.
  - apply NoDup_cons in Hnd as [Hf Hnd].
    destruct (Hin f) as [c Hc]; [by left|].
    unfold after. simpl. unfold mbind, io_bind, os_remove at 1 3, set_files.
    rewrite Hc.
    set (w' := World (delete f (files w)) (delete f (files w) :: seen w)).
    destruct (IH w' Hnd) as [Hok Hlk].
    { intros g Hg. simpl. rewrite lookup_delete_ne by (by intros ->).
      apply Hin. by right. }
    split; [done|]. intros k. unfold after in Hlk. rewrite Hlk. simpl.
    destruct (decide (k = f)) as [->|Hne].
    + rewrite lookup_delete_eq.
      rewrite (decide_True (P := f ∈ f :: l)) by (by left).
      by destruct (decide _).
    + rewrite lookup_delete_ne by done.
      destruct (decide (k ∈ l)) as [Hk|Hk].
      * by rewrite decide_True by (by right).
      * rewrite decide_False; [done|]. by intros [?|?]%elem_of_cons.
Qed.

Lemma glob_keys fs f : f ∈ (map_to_list fs).*1 ↔ is_Some (fs !! f).
Proof.
  rewrite list_elem_of_fmap. split.
  - intros ([g c] & -> & Hin%elem_of_map_to_list). eauto.
  - intros [c Hc]. exists (f, c). split; [done|]. by apply elem_of_map_to_list.
Qed.

(** Lines 99-103 with a name that is not taken: the new file is written,
    every earlier file is removed, and from the write on the new file is
    in every state of the directory. *)
Lemma write_and_prune master target w :
  files w !! target = None →
  let m : io (list item) :=
    dump_json Completes master target ;;
    for_each (map_to_list (files w)).*1 os_remove ;;
    mret master in
  (m w).1 = Ok master ∧
  files (after m w) = {[target := Json master]} ∧
  ∀ st, st ∈ seen (after m w) → st ∈ seen w ∨ st !! target = Some (Json master).
Proof.
  intros Hfresh. simpl. unfold after, mbind, io_bind. simpl.
  set (fs1 := <[target := Json master]> (files w)).
  set (w1 := World fs1 (fs1 :: seen w)).
  set (l := (map_to_list (files w)).*1).
  assert (target ∉ l) as Hnot.
  { intros Hin%glob_keys. rewrite Hfresh in Hin. by destruct Hin. }
  assert (files w1 !! target = Some (Json master)) as Ht
    by apply lookup_insert_eq.
  destruct (for_each_remove_all l w1) as [Hok Hlk].
  { apply NoDup_fst_map_to_list. }
  { intros f Hf. simpl. unfold fs1.
    rewrite lookup_insert_ne by (by intros <-). by apply glob_keys. }
  destruct (for_each_remove_keeps l target (Json master) w1 Hnot Ht)
    as [_ Hseen].
  unfold after in *.
  destruct (for_each l os_remove w1) as [[[]|e] w2]; [simpl in *|done].
  split_and!; [done| |].
  - apply map_eq. intros k. rewrite Hlk. unfold fs1.
    destruct (decide (k = target)) as [->|Hne].
    + destruct (decide (target ∈ l)); [done|].
      by rewrite lookup_insert_eq, lookup_singleton_eq.
    + rewrite lookup_insert_ne, lookup_singleton_ne by done.
      destruct (decide (k ∈ l)) as [Hk|Hk]; [done|].
      apply eq_None_not_Some. intros Hsome. by apply Hk, glob_keys.
  - intros st [Hst|Hst]%Hseen; [|by right].
    apply elem_of_cons in Hst as [->|Hst]; [right|by left]. exact Ht.
Qed.

Lemma update_master_labels_run new now1 now2 d w :
  update_master_labels new now1 now2 d w =
  match merged_in (files w) new with
  | Ok master =>
      (dump_json d master (chosen_name (files w) now1 now2 master) ;;
       for_each (map_to_list (files w)).*1 os_remove ;;
       mret master) w
  | Raise e => (Raise e, w)
  end.
Proof.
  unfold update_master_labels, merged_in, chosen_name.
  unfold mbind, io_bind, glob_master, load_json, path_exists, mret, io_ret.
  simpl. destruct (latest_of _) as [latest|]; [|done].
  by destruct (files w !! latest) as [[data|]|].
Qed.

Lemma chosen_name_fresh fs now1 now2 master :
  (∀ n, fs !! master_filename (strftime_micro now2) n = None) →
  fs !! chosen_name fs now1 now2 master = None.
Proof.
  intros Hmicro. unfold chosen_name. case_bool_decide as Hb; [apply Hmicro|].
  by apply eq_None_not_Some.
Qed.

(** [update_master_labels] replaces the snapshot safely, provided no
    file carries the microsecond stamp of its second clock reading: a
    completed call leaves exactly one file, the merged master, which is
    in the directory in every state from its write on. *)
Lemma update_master_labels_completed new now1 now2 w :
  (∀ n, files w !! master_filename (strftime_micro now2) n = None) →
  match (update_master_labels new now1 now2 Completes w).1 with
  | Ok master =>
      merged_in (files w) new = Ok master ∧
      ∃ target,
        files (after (update_master_labels new now1 now2 Completes) w)
        = {[target := Json master]} ∧
        ∀ st, st ∈ seen (after (update_master_labels new now1 now2 Completes) w) →
              st ∈ seen w ∨ st !! target = Some (Json master)
  | Raise _ => after (update_master_labels new now1 now2 Completes) w = w
  end.
Proof.
  intros Hmicro. unfold after. rewrite update_master_labels_run.
  destruct (merged_in (files w) new) as [master|e]; [|done].
  destruct (write_and_prune master _ w
              (chosen_name_fresh _ now1 now2 master Hmicro))
    as (Hok & Hfs & Hseen).
  unfold after in *. rewrite Hok. eauto.
Qed.

(** When the write of [update_master_labels] fails, the call raises and
    every file that was in the directory is still there, unchanged. *)
Lemma update_master_labels_failed_write new now1 now2 d w :
  d ≠ Completes →
  (∀ n, files w !! master_filename (strftime_micro now2) n = None) →
  (∃ e, (update_master_labels new now1 now2 d w).1 = Raise e) ∧
  ∀ f c, files w !! f = Some c →
         files (after (update_master_labels new now1 now2 d) w) !! f = Some c.
Proof.
  intros Hd Hmicro. unfold after. rewrite update_master_labels_run.
  destruct (merged_in (files w) new) as [master|e]; [|by eauto].
  pose proof (chosen_name_fresh _ now1 now2 master Hmicro) as Hfresh.
  unfold mbind, io_bind.
  destruct d; [done|simpl..]; (split; [by eauto|]); [done|].
  intros f c Hf. rewrite lookup_insert_ne; [done|].
  intros Heq. rewrite Heq, Hf in Hfresh. done.
Qed.
End write_then_delete.

(** C5 at its failing input.  The snapshot written by a fold-in at
    10:43:33.1 is folded into again through
    [integrate_changes_with_master] at 10:43:33.6 with a change to the
    record it holds.  The new file gets the name of the old one (same
    second, same size), is written over it, and is then removed as "the old
    master file": the call returns the name of the new snapshot, and the
    directory holds no snapshot. *)
Theorem integrate_same_second_removes_snapshot :
  let w0 := after (update_master_labels [rec "r1" 1 0] t_33_1 t_33_1 Completes)
                  (start ∅) in
  let name := master_filename (strftime_seconds t_33_1) 1 in
  let run := integrate_changes_with_master [rec "r1" 0 0] t_33_6 Completes w0 in
  files w0 = {[name := Json [rec "r1" 1 0]]} ∧
  run.1 = Ok (Some name) ∧
  files run.2 = ∅ ∧
  current_snapshot run.2 = None.
Proof. vm_compute. split_and!; reflexivity. Qed.

(** ** File names (C6, C7) *)

Section names.
Implicit Types (a b x y p : string) (t : timestamp).

Lemma string_length_app a b :
  String.length (a +:+ b) = String.length a + String.length b.
Proof. induction a as [|c a IH]; simpl; [done|]. by rewrite IH. Qed.

Lemma string_app_inj_length a b x y :
  String.length a = String.length b →
  a +:+ x = b +:+ y → a = b ∧ x = y.
Proof.
  revert b. induction a as [|c a IH]; intros [|d b]; simpl; try done.
  intros [= Hlen] [= -> Heq]. destruct (IH b Hlen Heq) as [-> ->]. done.
Qed.

Lemma length_zero_pad w n : String.length (zero_pad w n) = w.
Proof.
  revert n. induction w as [|w IH]; intros n; simpl; [done|].
  rewrite string_length_app, IH. simpl. lia.
Qed.

Lemma N_of_digit n : N_of_ascii (digit n) = (48 + n mod 10)%N.
Proof.
  unfold digit. apply N_ascii_embedding.
  pose proof (N.mod_upper_bound n 10). lia.
Qed.

Lemma digit_inj n m : digit n = digit m → (n mod 10 = m mod 10)%N.
Proof.
  intros Heq%(f_equal N_of_ascii). rewrite !N_of_digit in Heq. lia.
Qed.

Lemma zero_pad_inj w n m :
  (n < 10 ^ N.of_nat w)%N → (m < 10 ^ N.of_nat w)%N →
  zero_pad w n = zero_pad w m → n = m.
Proof.
  revert n m. induction w as [|w IH]; intros n m Hn Hm.
  - simpl in *. lia.
  - rewrite Nat2N.inj_succ, N.pow_succ_r' in Hn, Hm. simpl.
    intros [Hhi Hlo]%string_app_inj_length; [|by rewrite !length_zero_pad].
    injection Hlo as Hlo%digit_inj.
    apply IH in Hhi; [|apply N.Div0.div_lt_upper_bound; lia..].
    rewrite (N.div_mod n 10), (N.div_mod m 10) by done. by rewrite Hhi, Hlo.
Qed.

Lemma strftime_seconds_same_second t1 t2 :
  same_second t1 t2 → strftime_seconds t1 = strftime_seconds t2.
Proof.
  intros (HY & HM & HD & Hh & Hm & Hs). unfold strftime_seconds.
  by rewrite HY, HM, HD, Hh, Hm, Hs.
Qed.

Lemma strftime_seconds_inj t1 t2 :
  valid_timestamp t1 → valid_timestamp t2 →
  strftime_seconds t1 = strftime_seconds t2 → same_second t1 t2.
Proof.
  intros (HY1 & HM1 & HD1 & Hh1 & Hm1 & Hs1 & _)
         (HY2 & HM2 & HD2 & Hh2 & Hm2 & Hs2 & _).
  unfold strftime_seconds.
  intros [HY H]%string_app_inj_length; [|by rewrite !length_zero_pad].
  apply string_app_inj_length in H as [HM H]; [|by rewrite !length_zero_pad].
  apply string_app_inj_length in H as [HD H]; [|by rewrite !length_zero_pad].
  apply string_app_inj_length in H as [_ H]; [|done].
  apply string_app_inj_length in H as [Hh H]; [|by rewrite !length_zero_pad].
  apply string_app_inj_length in H as [Hm Hs]; [|by rewrite !length_zero_pad].
  unfold same_second.
  split_and!; eapply zero_pad_inj; try eassumption; simpl; lia.
Qed.

Lemma length_strftime_seconds t : String.length (strftime_seconds t) = 15.
Proof.
  unfold strftime_seconds. rewrite !string_length_app, !length_zero_pad. done.
Qed.
End names.

(** C7, as amended.  Two batches recorded with the same strategy, model,
    example count and sample size get the same artifact name exactly when
    they are created in the same clock second: the names differ across
    seconds and collide within one. *)
Theorem batch_names_differ_across_seconds
    (selection_method model : string) (max_examples batch_size : Z)
    (t1 t2 : timestamp) :
  valid_timestamp t1 → valid_timestamp t2 →
  batch_filename selection_method t1 max_examples batch_size model =
  batch_filename selection_method t2 max_examples batch_size model
  ↔ same_second t1 t2.
Proof.
  intros Hv1 Hv2. unfold batch_filename. split.
  - intros H. do 3 apply String.app_inj in H.
    apply string_app_inj_length in H as [H _];
      [|by rewrite !length_strftime_seconds].
    by apply strftime_seconds_inj.
  - intros H. by rewrite (strftime_seconds_same_second _ _ H).
Qed.

Lemma batch_names_differ_across_seconds_witness :
  valid_timestamp t_33_6 ∧ valid_timestamp t_34 ∧
  ¬ same_second t_33_6 t_34 ∧
  batch_filename "longest" t_33_6 30 10 "gpt-4.1-2025-04-14" ≠
  batch_filename "longest" t_34 30 10 "gpt-4.1-2025-04-14".
Proof.
  assert (valid_timestamp t_33_6) as H1 by (unfold valid_timestamp; simpl; lia).
  assert (valid_timestamp t_34) as H2 by (unfold valid_timestamp; simpl; lia).
  assert (¬ same_second t_33_6 t_34) as H3
    by (unfold same_second; simpl; lia).
  split_and!; [exact H1|exact H2|exact H3|].
  intros Heq. apply H3.
  exact (proj1 (batch_names_differ_across_seconds _ _ _ _ _ _ H1 H2) Heq).
Defined.

(** C7, as stated, fails: two batches made at different instants of the
    same second, with the same strategy, model, example count and sample
    size, get one and the same name. *)
Lemma batch_names_collide_within_a_second :
  t_33_1 ≠ t_33_6 ∧
  batch_filename "longest" t_33_1 30 10 "gpt-4.1-2025-04-14" =
  batch_filename "longest" t_33_6 30 10 "gpt-4.1-2025-04-14" ∧
  ¬ batch_names_never_collide.
Proof.
  assert (t_33_1 ≠ t_33_6) as Hne by discriminate.
  assert (batch_filename "longest" t_33_1 30 10 "gpt-4.1-2025-04-14" =
          batch_filename "longest" t_33_6 30 10 "gpt-4.1-2025-04-14") as Heq
    by (vm_compute; reflexivity).
  split_and!; [exact Hne|exact Heq|].
  intros H. exact (H _ _ _ _ _ _ Hne Heq).
Qed.

(** C6 at its failing input.  A snapshot of two records is written at
    10:43:33.1; a fold-in at 10:43:33.6 that leaves the size at two finds
    the name taken and appends microseconds.  The later name sorts before
    the earlier one, so between the write and the removal of the old file
    [sorted(files)[-1]] is the old snapshot; likewise a snapshot of ten
    records sorts before one of nine written earlier in that second. *)
Theorem later_snapshot_name_sorts_first :
  let old := [rec "r1" 1 0; rec "r2" 0 1] in
  let new := [rec "r1" 1 0; rec "r2" 1 1] in
  let n1 := "TOTAL_MANUAL_LABEL_AT-20250811_104333_TOTAL_SAMPLE_SIZE_2.json" in
  let n2 :=
    "TOTAL_MANUAL_LABEL_AT-20250811_104333_600000_TOTAL_SAMPLE_SIZE_2.json" in
  let w1 := after (update_master_labels old t_33_1 t_33_1 Completes) (start ∅) in
  let w2 := after (update_master_labels [rec "r2" 1 1] t_33_6 t_33_6 Completes) w1 in
  files w1 = {[n1 := Json old]} ∧
  files w2 = {[n2 := Json new]} ∧
  earlier t_33_1 t_33_6 = true ∧
  String.ltb n2 n1 = true ∧
  latest_of [n1; n2] = Some n1 ∧
  (∃ st, seen w2 !! 1 = Some st ∧
         st = <[n2 := Json new]> {[n1 := Json old]} ∧
         current_snapshot (start st) = Some (Json old)) ∧
  String.ltb (master_filename (strftime_seconds t_33_6) 10)
             (master_filename (strftime_seconds t_33_1) 9) = true.
Proof.
  split_and!; try (vm_compute; reflexivity).
  eexists. split_and!; vm_compute; reflexivity.
Qed.

(** ** Extracting changes from an edited export (C4, C8) *)

Section extract_changes.
Context (L : list string).
Implicit Types (O : list item) (E : list excel_row) (row : excel_row)
  (o : item) (c : string) (m : gmap string Z) (h : bool).

Lemma modified_value_read row c :
  modified_value row c =
  match read_label row c with
  | Some z => Ok z
  | None => match int_of_cell (row_get row c) with
            | Raise e => Raise e
            | Ok z => Ok z
            end
  end.
Proof.
  unfold modified_value, read_label, read_cell.
  destruct (notna (row_get row c)); [|done].
  by destruct (int_of_cell (row_get row c)).
Qed.

Lemma modified_value_readable row c :
  is_Some (read_label row c) → modified_value row c = Ok (row_value row c).
Proof.
  intros [z Hz]. rewrite modified_value_read. unfold row_value. by rewrite Hz.
Qed.

Lemma modified_value_unreadable row c :
  read_label row c = None → ∃ e, modified_value row c = Raise e.
Proof.
  unfold modified_value, read_label, read_cell.
  destruct (notna (row_get row c)); [|done].
  destruct (int_of_cell (row_get row c)); [done|eauto].
Qed.

Lemma lookup_list_to_map_fun {V} (l : list string) (f : string → V) c :
  (list_to_map ((λ c, (c, f c)) <$> l) : gmap string V) !! c =
  if decide (c ∈ l) then Some (f c) else None.
Proof.
  induction l as [|d l IH].
  - rewrite fmap_nil, list_to_map_nil, lookup_empty.
    case_decide; [set_solver|done].
  - rewrite fmap_cons, list_to_map_cons. simpl.
    destruct (decide (d = c)) as [->|Hne].
    + rewrite lookup_insert_eq. clear IH. case_decide; [done|set_solver].
    + rewrite lookup_insert_ne, IH by done.
      repeat case_decide; try done; set_solver.
Qed.

Lemma lookup_label_map (l : list string) f c :
  label_map l f !! c = if decide (c ∈ l) then Some (f c) else None.
Proof. apply lookup_list_to_map_fun. Qed.

Lemma lookup_foldl_insert (l : list string) (f : string → Z) m c :
  foldl (λ m d, <[d := f d]> m) m l !! c =
  if decide (c ∈ l) then Some (f c) else m !! c.
Proof.
  revert m. induction l as [|d l IH]; intros m.
  - destruct (decide (c ∈ [])); [set_solver|done].
  - cbn [foldl]. rewrite IH. clear IH.
    destruct (decide (d = c)) as [->|Hne].
    + rewrite lookup_insert_eq. repeat case_decide; try done; set_solver.
    + rewrite lookup_insert_ne by done.
      repeat case_decide; try done; set_solver.
Qed.

Lemma foldl_insert_label_map (l : list string) (f : string → Z) :
  foldl (λ m d, <[d := f d]> m) ∅ l = label_map l f.
Proof.
  apply map_eq. intros c. rewrite lookup_foldl_insert, lookup_label_map.
  by rewrite lookup_empty.
Qed.

Lemma check_category_readable o row m h c :
  is_Some (read_label row c) →
  check_category o row (m, h) c =
  Ok (<[c := row_value row c]> m,
      h || bool_decide (get_label o c ≠ row_value row c)).
Proof.
  intros Hc. unfold check_category. by rewrite modified_value_readable.
Qed.

Lemma check_category_unreadable o row m h c :
  read_label row c = None → ∃ e, check_category o row (m, h) c = Raise e.
Proof.
  intros Hc. unfold check_category.
  destruct (modified_value_unreadable row c Hc) as [e ->]. by exists e.
Qed.

(** The inner loop on a readable row. *)
Lemma foldM_check_category o row (l : list string) m h :
  Forall (λ c, is_Some (read_label row c)) l →
  foldM (check_category o row) (m, h) l =
  Ok (foldl (λ m d, <[d := row_value row d]> m) m l,
      h || bool_decide (Exists (λ c, get_label o c ≠ row_value row c) l)).
Proof.
  revert m h. induction l as [|c l IH]; intros m h Hl; simpl.
  - by rewrite orb_false_r.
  - apply Forall_cons in Hl as [Hc Hl].
    rewrite check_category_readable by done. simpl.
    rewrite IH by done. do 2 f_equal.
    rewrite <-orb_assoc. f_equal.
    destruct (decide (get_label o c ≠ row_value row c)) as [Hne|Heq].
    + rewrite bool_decide_eq_true_2 by done. simpl. symmetry.
      apply bool_decide_eq_true_2. by left.
    + rewrite bool_decide_eq_false_2 by done. simpl.
      apply bool_decide_ext. rewrite Exists_cons. naive_solver.
Qed.

Lemma foldM_check_category_unreadable o row (l : list string) m h :
  ¬ Forall (λ c, is_Some (read_label row c)) l →
  ∃ e, foldM (check_category o row) (m, h) l = Raise e.
Proof.
  revert m h. induction l as [|c l IH]; intros m h Hl; simpl.
  - by destruct Hl.
  - destruct (read_label row c) as [z|] eqn:Hz.
    + rewrite check_category_readable by (by rewrite Hz). simpl. apply IH.
      intros Hl'. apply Hl. apply Forall_cons. split; [by rewrite Hz|done].
    + destruct (check_category_unreadable o row m h c Hz) as [e ->].
      simpl. eauto.
Qed.

Lemma vectors_differ o row (l : list string) :
  Exists (λ c, get_label o c ≠ row_value row c) l ↔
  row_value row <$> l ≠ get_label o <$> l.
Proof.
  induction l as [|c l IH].
  - rewrite Exists_nil. naive_solver.
  - rewrite Exists_cons, IH, !fmap_cons. split.
    + intros [Hne|Hne] [= ? ?]; by apply Hne.
    + intros Hne. destruct (decide (get_label o c = row_value row c)) as [Heq|];
        [right|by left].
      intros Heq'. apply Hne. by rewrite Heq, Heq'.
Qed.

(** One row: the change list grows by the change expected for the row. *)
Lemma detect_row_readable (original : gmap string item) changes row :
  (is_Some (original !! row_id row) → row_readable L row) →
  detect_row L original changes row =
  Ok (changes ++ option_list (expected_change L original row)).
Proof.
  intros Hread. unfold detect_row, expected_change.
  destruct (original !! row_id row) as [o|] eqn:Ho; simpl;
    [|by rewrite app_nil_r].
  rewrite foldM_check_category by (by apply Hread). simpl.
  rewrite foldl_insert_label_map.
  unfold row_vector, original_vector.
  destruct (decide (row_value row <$> L = get_label o <$> L)) as [Heq|Hne].
  - rewrite bool_decide_eq_false_2; [by rewrite app_nil_r|].
    intros Hex%vectors_differ. by apply Hex.
  - rewrite bool_decide_eq_true_2; [done|]. by apply vectors_differ.
Qed.

Lemma detect_row_unreadable (original : gmap string item) changes row :
  is_Some (original !! row_id row) → ¬ row_readable L row →
  ∃ e, detect_row L original changes row = Raise e.
Proof.
  intros [o Ho] Hread. unfold detect_row. rewrite Ho.
  destruct (foldM_check_category_unreadable o row L ∅ false Hread) as [e ->].
  simpl. eauto.
Qed.

Lemma foldM_detect_row_readable (original : gmap string item) changes E :
  Forall (λ row, is_Some (original !! row_id row) → row_readable L row) E →
  foldM (detect_row L original) changes E =
  Ok (changes ++ omap (expected_change L original) E).
Proof.
  revert changes. induction E as [|row E IH]; intros changes HE; simpl.
  - by rewrite app_nil_r.
  - apply Forall_cons in HE as [Hrow HE].
    rewrite detect_row_readable by done. simpl. rewrite IH by done.
    rewrite <-app_assoc. do 2 f_equal.
    by destruct (expected_change L original row).
Qed.

Lemma foldM_detect_row_unreadable (original : gmap string item) changes E :
  ¬ Forall (λ row, is_Some (original !! row_id row) → row_readable L row) E →
  ∃ e, foldM (detect_row L original) changes E = Raise e.
Proof.
  revert changes. induction E as [|row E IH]; intros changes HE; simpl.
  - by destruct HE.
  - destruct (decide (is_Some (original !! row_id row) → row_readable L row))
      as [Hrow|Hrow].
    + rewrite detect_row_readable by done. simpl. apply IH.
      intros HE'. apply HE. by apply Forall_cons.
    + destruct (decide (is_Some (original !! row_id row))) as [Hid|Hid];
        [|by destruct Hrow].
      destruct (detect_row_unreadable original changes row Hid) as [e ->];
        [naive_solver|]. simpl. eauto.
Qed.

Lemma detect_changes_readable O E :
  Forall (λ row, is_Some (lookup_by_id O !! row_id row) → row_readable L row) E →
  detect_changes_from_excel L O E =
  Ok (omap (expected_change L (lookup_by_id O)) E).
Proof.
  intros HE. unfold detect_changes_from_excel.
  by rewrite foldM_detect_row_readable.
Qed.

Lemma detect_changes_returns O E cs :
  detect_changes_from_excel L O E = Ok cs →
  Forall (λ row, is_Some (lookup_by_id O !! row_id row) → row_readable L row) E.
Proof.
  intros Hok.
  destruct (decide (Forall (λ row, is_Some (lookup_by_id O !! row_id row) →
                                   row_readable L row) E)) as [|Hno]; [done|].
  destruct (foldM_detect_row_unreadable (lookup_by_id O) [] E Hno) as [e He].
  unfold detect_changes_from_excel in Hok. by rewrite He in Hok.
Qed.

Lemma elem_of_expected_changes O E r :
  r ∈ omap (expected_change L (lookup_by_id O)) E ↔
  ∃ row o, row ∈ E ∧ lookup_by_id O !! row_id row = Some o ∧
           row_vector L row ≠ original_vector L o ∧
           r = Item (row_id row) (text_content o) (label_map L (row_value row)).
Proof.
  rewrite list_elem_of_omap. unfold expected_change. split.
  - intros (row & Hrow & Hr). exists row.
    destruct (lookup_by_id O !! row_id row) as [o|]; simpl in Hr; [|done].
    exists o. destruct (decide _) as [|Hne]; [done|]. by injection Hr as <-.
  - intros (row & o & Hrow & Ho & Hne & ->). exists row. split; [done|].
    rewrite Ho. simpl. by rewrite decide_False.
Qed.



End extract_changes.






(** ** Selecting the longest texts (C9) *)

Section selection.
Implicit Types (rows : list df_row) (df unl : frame) (s : list (nat * nat))
  (labeled : gset string) (r u : df_row) (i j n : nat).










(** *** The stable sort by decreasing length *)









(** *** Picking rows by label *)

Lemma elem_of_loc unl (labels : list nat) (x : nat * df_row) :
  x ∈ loc unl labels ↔ x.1 ∈ labels ∧ x ∈ unl.
Proof.
  unfold loc. rewrite list_elem_of_bind. split.
  - intros (i & [<- Hx]%list_elem_of_filter & Hi). done.
  - intros [Hi Hx]. exists x.1. split; [|done]. by apply list_elem_of_filter.
Qed.


End selection.



(** ** Snapshot names of different seconds sort by time *)

Section name_order.
Implicit Types (a b x y p : string) (t : timestamp).

Lemma string_app_assoc a b x : (a +:+ b) +:+ x = a +:+ (b +:+ x).
Proof.
  induction a as [|c a IH]; [done|].
  change (String c ((a +:+ b) +:+ x) = String c (a +:+ (b +:+ x))).
  by rewrite IH.
Qed.

Lemma string_app_nil_r a : a +:+ "" = a.
Proof.
  induction a as [|c a IH]; [done|].
  change (String c (a +:+ "") = String c a). by rewrite IH.
Qed.

Lemma ascii_compare_refl (c : ascii) : Ascii.compare c c = Eq.
Proof. unfold Ascii.compare. apply N.compare_refl. Qed.

Lemma compare_app_same p a b :
  String.compare (p +:+ a) (p +:+ b) = String.compare a b.
Proof.
  induction p as [|c p IH]; simpl; [done|]. by rewrite ascii_compare_refl.
Qed.

Lemma compare_app_blocks a b x y :
  String.length a = String.length b →
  String.compare (a +:+ x) (b +:+ y) =
  match String.compare a b with
  | Eq => String.compare x y
  | c => c
  end.
Proof.
  revert b. induction a as [|c a IH]; intros [|d b]; simpl; try done.
  intros [= Hlen]. destruct (Ascii.compare c d); [by apply IH|done..].
Qed.

Lemma compare_digit n m :
  Ascii.compare (digit n) (digit m) = (n mod 10 ?= m mod 10)%N.
Proof.
  unfold Ascii.compare. rewrite !N_of_digit.
  destruct (N.compare_spec (n mod 10) (m mod 10));
    [apply N.compare_eq_iff|apply N.compare_lt_iff|apply N.compare_gt_iff]; lia.
Qed.

Lemma compare_div_mod (n m : N) :
  match (n / 10 ?= m / 10)%N with
  | Eq => (n mod 10 ?= m mod 10)%N
  | c => c
  end = (n ?= m)%N.
Proof.
  assert (n = 10 * (n / 10) + n mod 10)%N as Hn by (apply N.div_mod; lia).
  assert (m = 10 * (m / 10) + m mod 10)%N as Hm by (apply N.div_mod; lia).
  assert (n mod 10 < 10)%N as Hn' by (apply N.mod_upper_bound; lia).
  assert (m mod 10 < 10)%N as Hm' by (apply N.mod_upper_bound; lia).
  revert Hn Hm Hn' Hm'.
  generalize (n / 10)%N (m / 10)%N (n mod 10)%N (m mod 10)%N.
  intros qn qm rn rm -> -> Hrn Hrm. symmetry.
  destruct (N.compare_spec qn qm);
    [destruct (N.compare_spec rn rm)|..];
    [apply N.compare_eq_iff|apply N.compare_lt_iff|apply N.compare_gt_iff
    |apply N.compare_lt_iff|apply N.compare_gt_iff]; lia.
Qed.

Lemma compare_zero_pad w n m :
  String.compare (zero_pad w n) (zero_pad w m) =
  match w with
  | O => Eq
  | S _ => ((n mod 10 ^ N.of_nat w) ?= (m mod 10 ^ N.of_nat w))%N
  end.
Proof.
  revert n m. induction w as [|w IH]; intros n m; [done|].
  simpl zero_pad. rewrite compare_app_blocks by (by rewrite !length_zero_pad).
  rewrite IH. simpl String.compare. rewrite compare_digit.
  rewrite Nat2N.inj_succ, N.pow_succ_r'.
  destruct w as [|w].
  - change (10 * 10 ^ N.of_nat 0)%N with 10%N.
    by destruct (n mod 10 ?= m mod 10)%N.
  - set (q := (10 ^ N.of_nat (S w))%N).
    assert (q ≠ 0)%N as Hq by (apply N.pow_nonzero; lia).
    rewrite <-(compare_div_mod (n mod (10 * q)) (m mod (10 * q))).
    rewrite !N.Div0.mod_mul_r.
    assert (∀ k, ((k mod 10 + 10 * ((k / 10) mod q)) / 10 = (k / 10) mod q)%N)
      as Hdiv.
    { intros k. rewrite (N.mul_comm 10), N.div_add by lia.
      rewrite N.div_small by (apply N.mod_upper_bound; lia). lia. }
    assert (∀ k, ((k mod 10 + 10 * ((k / 10) mod q)) mod 10 = k mod 10)%N)
      as Hmod.
    { intros k. rewrite (N.mul_comm 10), N.Div0.mod_add.
      apply N.Div0.mod_mod. }
    rewrite !Hdiv, !Hmod.
    by destruct (((n / 10) mod q ?= (m / 10) mod q)%N),
                (n mod 10 ?= m mod 10)%N.
Qed.

Lemma compare_zero_pad_small w n m :
  (n < 10 ^ N.of_nat (S w))%N → (m < 10 ^ N.of_nat (S w))%N →
  String.compare (zero_pad (S w) n) (zero_pad (S w) m) = (n ?= m)%N.
Proof.
  intros Hn Hm. rewrite compare_zero_pad. by rewrite !N.mod_small.
Qed.

Lemma compare_strftime_seconds t1 t2 :
  valid_timestamp t1 → valid_timestamp t2 →
  lex_lt (second_key t1) (second_key t2) = true →
  String.compare (strftime_seconds t1) (strftime_seconds t2) = Lt.
Proof.
  intros (HY1 & HM1 & HD1 & Hh1 & Hm1 & Hs1 & _)
         (HY2 & HM2 & HD2 & Hh2 & Hm2 & Hs2 & _) Hlt.
  unfold strftime_seconds.
  rewrite compare_app_blocks by (by rewrite !length_zero_pad).
  rewrite compare_zero_pad_small by (simpl; lia).
  rewrite compare_app_blocks by (by rewrite !length_zero_pad).
  rewrite compare_zero_pad_small by (simpl; lia).
  rewrite compare_app_blocks by (by rewrite !length_zero_pad).
  rewrite compare_zero_pad_small by (simpl; lia).
  rewrite (compare_app_same "_").
  rewrite compare_app_blocks by (by rewrite !length_zero_pad).
  rewrite compare_zero_pad_small by (simpl; lia).
  rewrite compare_app_blocks by (by rewrite !length_zero_pad).
  rewrite !compare_zero_pad_small by (simpl; lia).
  unfold second_key in Hlt. simpl in Hlt.
  repeat (rewrite orb_true_iff in Hlt || rewrite andb_true_iff in Hlt).
  rewrite ?N.ltb_lt, ?N.eqb_eq in Hlt.
  repeat match goal with
  | |- match (?a ?= ?b)%N with Eq => _ | Lt => _ | Gt => _ end = Lt =>
      destruct (N.compare_spec a b); [|done|exfalso; lia]
  end.
  apply N.compare_lt_iff. lia.
Qed.

Lemma compare_master_filename s1 s2 x1 x2 n1 n2 :
  String.length s1 = String.length s2 →
  String.compare s1 s2 = Lt →
  String.ltb (master_filename (s1 +:+ x1) n1) (master_filename (s2 +:+ x2) n2)
  = true.
Proof.
  intros Hlen Hlt. unfold String.ltb, master_filename.
  rewrite compare_app_same, !string_app_assoc.
  rewrite compare_app_blocks by done. by rewrite Hlt.
Qed.

(** Of two snapshot names stamped in different seconds, with or without
    microseconds and whatever the sizes, the one of the earlier second is
    the smaller string. *)
Lemma master_filename_chronological t1 t2 stamp1 stamp2 n1 n2 :
  valid_timestamp t1 → valid_timestamp t2 →
  lex_lt (second_key t1) (second_key t2) = true →
  stamp_of t1 stamp1 → stamp_of t2 stamp2 →
  String.ltb (master_filename stamp1 n1) (master_filename stamp2 n2) = true.
Proof.
  intros Hv1 Hv2 Hlt Hs1 Hs2.
  pose proof (compare_strftime_seconds t1 t2 Hv1 Hv2 Hlt) as Hcmp.
  assert (∃ x1, stamp1 = strftime_seconds t1 +:+ x1) as [x1 ->].
  { destruct Hs1 as [->| ->]; [exists ""|by eexists].
    by rewrite string_app_nil_r. }
  assert (∃ x2, stamp2 = strftime_seconds t2 +:+ x2) as [x2 ->].
  { destruct Hs2 as [->| ->]; [exists ""|by eexists].
    by rewrite string_app_nil_r. }
  apply compare_master_filename; [|done].
  by rewrite !length_strftime_seconds.
Qed.
End name_order.

(** * Further properties of the code *)

(** ** How fold-ins compose *)

(** X1.  Folding batches into an existing master one after another, as the
    "process all files" loop of [main.py] does through
    [update_master_labels], leaves the snapshot that folding their
    concatenation in at once leaves. *)
Theorem fold_ins_compose (S B : list item) (Bs : list (list item)) :
  foldl (λ master new, merge_master (Some master) new)
        (merge_master (Some S) B) Bs
  = merge_master (Some S) (B ++ concat Bs).
Proof.
  revert B. induction Bs as [|B' Bs IH]; intros B.
  - by rewrite app_nil_r.
  - cbn [foldl concat]. rewrite app_assoc, <-IH. f_equal. simpl.
    rewrite (dedupe_upsert (dedupe (S ++ B) ++ B')), foldl_app, <-dedupe_upsert.
    rewrite (dedupe_unique (dedupe (S ++ B))) by apply NoDup_ids_dedupe.
    by rewrite (dedupe_upsert (S ++ B ++ B')), app_assoc, foldl_app,
      <-dedupe_upsert.
Qed.

(** X2.  Two batches that share no id can be folded into a master in either
    order: the two snapshots hold the same records (in a different order
    for the new ids). *)
Theorem disjoint_fold_ins_commute (S B1 B2 : list item) :
  (∀ i, i ∈ ids B1 → i ∉ ids B2) →
  merge_master (Some (merge_master (Some S) B1)) B2
  ≡ₚ merge_master (Some (merge_master (Some S) B2)) B1.
Proof.
  intros Hdisj.
  pose proof (fold_ins_compose S B1 [B2]) as H12.
  pose proof (fold_ins_compose S B2 [B1]) as H21.
  cbn [foldl concat] in H12, H21. rewrite H12, H21, !app_nil_r. simpl.
  apply NoDup_Permutation.
  - eapply NoDup_fmap_1, NoDup_ids_dedupe.
  - eapply NoDup_fmap_1, NoDup_ids_dedupe.
  - intros r. rewrite !elem_of_dedupe, !lookup_by_id_app.
    destruct (lookup_by_id B1 !! item_id r) as [b1|] eqn:H1,
             (lookup_by_id B2 !! item_id r) as [b2|] eqn:H2; try done.
    exfalso. apply (Hdisj (item_id r)); apply lookup_by_id_is_Some; eauto.
Qed.

Lemma disjoint_fold_ins_commute_witness :
  let S := [rec "r1" 1 0; rec "r2" 0 1] in
  let B1 := [rec "r2" 1 1; rec "r3" 0 0] in
  let B2 := [rec "r4" 0 1; rec "r1" 0 0] in
  (∀ i, i ∈ ids B1 → i ∉ ids B2) ∧
  merge_master (Some (merge_master (Some S) B1)) B2
  ≡ₚ merge_master (Some (merge_master (Some S) B2)) B1.
Proof.
  assert (∀ i, i ∈ ids [rec "r2" 1 1; rec "r3" 0 0] →
               i ∉ ids [rec "r4" 0 1; rec "r1" 0 0]) as Hdisj.
  { intros i Hi Hi'. revert Hi Hi'. unfold ids. simpl.
    rewrite !elem_of_cons, !elem_of_nil. intros [->|[->|[]]] [?|[?|[]]]; done. }
  split; [exact Hdisj|]. exact (disjoint_fold_ins_commute _ _ _ Hdisj).
Defined.

(** X3.  The size of the snapshot that [update_master_labels] writes over
    an existing master, which it also puts in the file name as
    [TOTAL_SAMPLE_SIZE], is the number of distinct ids of master and batch
    together. *)
Theorem snapshot_size_counts_ids (S B : list item) :
  length (merge_master (Some S) B)
  = size (list_to_set (ids (S ++ B)) : gset string).
Proof.
  simpl. rewrite <-(length_fmap item_id (dedupe (S ++ B))).
  fold (ids (dedupe (S ++ B))).
  rewrite <-(size_list_to_set (C := gset string)) by apply NoDup_ids_dedupe.
  f_equal. apply set_eq. intros i.
  rewrite !elem_of_list_to_set. apply ids_dedupe_elem.
Qed.

Lemma fold_in_paths_agree_unique (S B : list item) :
  NoDup (ids S) → NoDup (ids B) → integrate_changes S B = dedupe (S ++ B).
Proof.
  intros HS HB. rewrite integrate_changes_shape by done.
  pose proof (merge_master_unique S B HS HB) as Heq. simpl in Heq. by rewrite Heq.
Qed.

(** X4.  On a master of unique ids the two fold-in paths,
    [integrate_changes_with_master] and [update_master_labels], compute
    the same snapshot exactly when the batch does not repeat an id that is
    new to the master. *)
Theorem fold_in_paths_agree (S B : list item) :
  NoDup (ids S) →
  integrate_changes S B = merge_master (Some S) B
  ↔ NoDup (ids (new_records S B)).
Proof.
  intros HS. simpl.
  rewrite integrate_changes_shape, dedupe_app, (dedupe_unique S) by done.
  split.
  - intros Heq%app_inv_head. rewrite Heq. apply NoDup_ids_dedupe.
  - intros Hnew. by rewrite dedupe_unique.
Qed.

Lemma fold_in_paths_agree_witness :
  let S := [rec "r1" 1 0; rec "r2" 0 1] in
  let B := [rec "r2" 1 1; rec "r3" 0 0; rec "r2" 1 0] in
  NoDup (ids S) ∧ NoDup (ids (new_records S B)) ∧
  integrate_changes S B = merge_master (Some S) B.
Proof.
  assert (NoDup (ids [rec "r1" 1 0; rec "r2" 0 1])) as HS by compute_done.
  assert (NoDup (ids (new_records [rec "r1" 1 0; rec "r2" 0 1]
                        [rec "r2" 1 1; rec "r3" 0 0; rec "r2" 1 0]))) as HB
    by compute_done.
  split_and!; [exact HS|exact HB|].
  exact (proj2 (fold_in_paths_agree _ _ HS) HB).
Defined.

(** ** The store across calls *)

Lemma latest_of_singleton (target : string) (c : content) :
  latest_of (map_to_list ({[target := c]} : gmap string content)).*1
  = Some target.
Proof. by rewrite map_to_list_singleton. Qed.

Lemma ids_merged_in (fs : gmap string content) (new master : list item) b :
  merged_in fs new = Ok master → b ∈ new → item_id b ∈ ids master.
Proof.
  unfold merged_in. intros Hm Hb.
  assert (item_id b ∈ ids new) as Hid by (apply list_elem_of_fmap; eauto).
  destruct (latest_of _) as [latest|]; [|by injection Hm as <-].
  destruct (fs !! latest) as [[data|]|]; [|done..]. injection Hm as <-.
  simpl. apply ids_dedupe_elem. unfold ids. rewrite fmap_app, elem_of_app.
  by right.
Qed.

Lemma select_batch_by_length_unlabeled (df : frame) (labeled_ids : gset string)
    (k : Z) (x : nat * df_row) :
  x ∈ select_batch_by_length df labeled_ids k →
  x ∈ df ∧ df_id x.2 ∉ labeled_ids.
Proof.
  unfold select_batch_by_length.
  destruct (decide (length (unlabeled_of df labeled_ids) = 0));
    [by intros ?%elem_of_nil|].
  intros [_ Hx]%elem_of_loc. unfold unlabeled_of in Hx.
  apply list_elem_of_filter in Hx. naive_solver.
Qed.

(** X5.  [update_master_labels] replaces the snapshot safely when no file
    carries the microsecond stamp of its second clock reading.  If the write
    fails, the call raises and every file of the directory is still there,
    unchanged.  If the call completes, the directory holds exactly one
    file, with the returned master list, and that file is in every
    directory state from its write on: at no moment is there no snapshot. *)
Theorem update_master_labels_replaces_safely
    (new : list item) (now1 now2 : timestamp) (d : disk) (w : world) :
  (∀ n, files w !! master_filename (strftime_micro now2) n = None) →
  let run := update_master_labels new now1 now2 d w in
  (d ≠ Completes →
     (∃ e, run.1 = Raise e) ∧
     ∀ f c, files w !! f = Some c → files run.2 !! f = Some c) ∧
  (∀ master, d = Completes → run.1 = Ok master →
     ∃ target, files run.2 = {[target := Json master]} ∧
       ∀ st, st ∈ seen run.2 → st ∈ seen w ∨ st !! target = Some (Json master)).
Proof.
  intros Hmicro run. split.
  - intros Hd. by apply update_master_labels_failed_write.
  - intros master -> Hok.
    pose proof (update_master_labels_completed new now1 now2 w Hmicro) as H.
    unfold run in Hok. rewrite Hok in H. destruct H as (_ & target & Hfs & Hseen).
    exists target. by split.
Qed.

Lemma update_master_labels_replaces_safely_witness :
  let w := start {[ master_filename (strftime_seconds t_33_1) 1
                    := Json [rec "r1" 1 0] ]} in
  (∀ n, files w !! master_filename (strftime_micro t_34) n = None) ∧
  (∃ e, (update_master_labels [rec "r2" 0 1] t_34 t_34 FailsMidWrite w).1
        = Raise e) ∧
  (∃ target,
     files (update_master_labels [rec "r2" 0 1] t_34 t_34 Completes w).2
     = {[target := Json [rec "r1" 1 0; rec "r2" 0 1]]}).
Proof.
  set (w := start {[ master_filename (strftime_seconds t_33_1) 1
                     := Json [rec "r1" 1 0] ]}).
  assert (∀ n, files w !! master_filename (strftime_micro t_34) n = None)
    as Hmicro.
  { intros n. apply lookup_singleton_ne. unfold master_filename.
    intros Heq. apply String.app_inj in Heq.
    apply (f_equal (λ x, String.get 14 x)) in Heq. vm_compute in Heq.
    discriminate. }
  pose proof (update_master_labels_replaces_safely [rec "r2" 0 1] t_34 t_34
                FailsMidWrite w Hmicro) as [Hfail _].
  pose proof (update_master_labels_replaces_safely [rec "r2" 0 1] t_34 t_34
                Completes w Hmicro) as [_ Hdone].
  split_and!; [exact Hmicro|by apply Hfail|].
  destruct (Hdone [rec "r1" 1 0; rec "r2" 0 1] eq_refl) as (target & Hfs & _);
    [vm_compute; reflexivity|].
  by exists target.
Defined.

(** X6.  After a completed [update_master_labels] the snapshot that readers
    resolve is the returned master list, [load_labeled_ids] returns
    exactly the ids of that list, and these include the id of every record
    of the batch. *)
Theorem fold_in_then_load_labeled_ids
    (new master : list item) (now1 now2 : timestamp) (w : world) :
  (∀ n, files w !! master_filename (strftime_micro now2) n = None) →
  (update_master_labels new now1 now2 Completes w).1 = Ok master →
  let w' := after (update_master_labels new now1 now2 Completes) w in
  current_snapshot w' = Some (Json master) ∧
  load_labeled_ids w' = (Ok (list_to_set (ids master)), w') ∧
  ∀ b, b ∈ new → item_id b ∈ (list_to_set (ids master) : gset string).
Proof.
  intros Hmicro Hok w'.
  pose proof (update_master_labels_completed new now1 now2 w Hmicro) as H.
  rewrite Hok in H. destruct H as (Hm & target & Hfs & _).
  fold w' in Hfs. split_and!.
  - unfold current_snapshot. rewrite Hfs, latest_of_singleton. simpl.
    apply lookup_singleton_eq.
  - unfold load_labeled_ids, mbind, io_bind, glob_master.
    rewrite Hfs, latest_of_singleton. unfold load_json.
    by rewrite Hfs, lookup_singleton_eq.
  - intros b Hb. apply elem_of_list_to_set. by eapply ids_merged_in.
Qed.

Lemma fold_in_then_load_labeled_ids_witness :
  let w := start ∅ in
  let new := [rec "r1" 1 0; rec "r2" 0 1] in
  let w' := after (update_master_labels new t_34 t_34 Completes) w in
  (∀ n, files w !! master_filename (strftime_micro t_34) n = None) ∧
  (update_master_labels new t_34 t_34 Completes w).1 = Ok new ∧
  load_labeled_ids w' = (Ok (list_to_set (ids new)), w').
Proof.
  assert (∀ n, files (start ∅) !! master_filename (strftime_micro t_34) n = None)
    as Hmicro by (intros n; apply lookup_empty).
  assert ((update_master_labels [rec "r1" 1 0; rec "r2" 0 1] t_34 t_34
             Completes (start ∅)).1 = Ok [rec "r1" 1 0; rec "r2" 0 1]) as Hok
    by (vm_compute; reflexivity).
  split_and!; [exact Hmicro|exact Hok|].
  exact (proj1 (proj2 (fold_in_then_load_labeled_ids _ _ _ _ _ Hmicro Hok))).
Defined.

(** X7.  Records that have been folded in are not selected again: after a
    completed [update_master_labels] of a batch, with the labeled ids that
    [load_labeled_ids] then returns, [select_batch_by_length] returns no
    row whose id is the id of a record of that batch. *)
Theorem folded_records_are_not_reselected
    (new master : list item) (now1 now2 : timestamp) (w : world)
    (labeled_ids : gset string) (rows : list df_row) (k : Z) :
  (∀ n, files w !! master_filename (strftime_micro now2) n = None) →
  (update_master_labels new now1 now2 Completes w).1 = Ok master →
  (load_labeled_ids (after (update_master_labels new now1 now2 Completes) w)).1
    = Ok labeled_ids →
  ∀ x, x ∈ select_batch_by_length (data_frame rows) labeled_ids k →
       df_id x.2 ∉ ids new.
Proof.
  intros Hmicro Hok Hload x Hx.
  pose proof (update_master_labels_completed new now1 now2 w Hmicro) as H.
  rewrite Hok in H. destruct H as (Hm & target & Hfs & _).
  unfold load_labeled_ids, mbind, io_bind, glob_master in Hload.
  rewrite Hfs, latest_of_singleton in Hload. unfold load_json in Hload.
  rewrite Hfs, lookup_singleton_eq in Hload. simpl in Hload.
  injection Hload as <-.
  apply select_batch_by_length_unlabeled in Hx as [_ Hx].
  intros (b & Hid & Hb)%list_elem_of_fmap. apply Hx.
  apply elem_of_list_to_set. rewrite Hid. by eapply ids_merged_in.
Qed.

Lemma folded_records_are_not_reselected_witness :
  let new := [Item "b" "xxxx" (lab 1 0)] in
  let w' := after (update_master_labels new t_34 t_34 Completes) (start ∅) in
  (load_labeled_ids w').1 = Ok {["b"]} ∧
  ∀ x, x ∈ select_batch_by_length (data_frame five_rows) {["b"]} 2 →
       df_id x.2 ∉ ids new.
Proof.
  assert (∀ n, files (start ∅) !! master_filename (strftime_micro t_34) n = None)
    as Hmicro by (intros n; apply lookup_empty).
  assert ((update_master_labels [Item "b" "xxxx" (lab 1 0)] t_34 t_34
             Completes (start ∅)).1 = Ok [Item "b" "xxxx" (lab 1 0)]) as Hok
    by (vm_compute; reflexivity).
  assert ((load_labeled_ids
             (after (update_master_labels [Item "b" "xxxx" (lab 1 0)] t_34 t_34
                       Completes) (start ∅))).1 = Ok {["b"]}) as Hload
    by (vm_compute; reflexivity).
  split; [exact Hload|].
  exact (folded_records_are_not_reselected _ _ _ _ _ _ five_rows 2
           Hmicro Hok Hload).
Defined.

(** X8.  A latest snapshot file that holds no JSON document (the trace of
    a write that failed midway) stops every reader: [update_master_labels]
    and [load_labeled_ids] raise [JSONDecodeError],
    [integrate_changes_with_master] returns [None], and none of them
    writes or removes a file. *)
Theorem truncated_snapshot_blocks_the_store
    (w : world) (latest : string) (new changes : list item)
    (now1 now2 : timestamp) (d : disk) :
  latest_of (map_to_list (files w)).*1 = Some latest →
  files w !! latest = Some Truncated →
  update_master_labels new now1 now2 d w = (Raise JSONDecodeError, w) ∧
  integrate_changes_with_master changes now1 d w = (Ok None, w) ∧
  load_labeled_ids w = (Raise JSONDecodeError, w).
Proof.
  intros Hlatest Hfile. split_and!.
  - rewrite update_master_labels_run. unfold merged_in.
    by rewrite Hlatest, Hfile.
  - unfold integrate_changes_with_master, try_except, mbind, io_bind,
      glob_master.
    rewrite Hlatest. unfold load_json. by rewrite Hfile.
  - unfold load_labeled_ids, mbind, io_bind, glob_master.
    rewrite Hlatest. unfold load_json. by rewrite Hfile.
Qed.

Lemma truncated_snapshot_blocks_the_store_witness :
  let w := after (update_master_labels [rec "r1" 1 0] t_34 t_34 FailsMidWrite)
                 (start ∅) in
  let latest := master_filename (strftime_seconds t_34) 1 in
  latest_of (map_to_list (files w)).*1 = Some latest ∧
  files w !! latest = Some Truncated ∧
  load_labeled_ids w = (Raise JSONDecodeError, w).
Proof.
  set (w := after (update_master_labels [rec "r1" 1 0] t_34 t_34 FailsMidWrite)
                  (start ∅)).
  assert (latest_of (map_to_list (files w)).*1
          = Some (master_filename (strftime_seconds t_34) 1)) as H1
    by (vm_compute; reflexivity).
  assert (files w !! master_filename (strftime_seconds t_34) 1 = Some Truncated)
    as H2 by (vm_compute; reflexivity).
  split_and!; [exact H1|exact H2|].
  exact (proj2 (proj2 (truncated_snapshot_blocks_the_store w _ [] [] t_34 t_34
                         Completes H1 H2))).
Defined.

(** X9.  When its write completes and its new file name is not the name of
    the latest file, [integrate_changes_with_master] leaves the merged list
    under the new name and removes the latest file only: every other file
    of the master directory stays as it is. *)
Theorem integrate_replaces_latest_only
    (w : world) (latest : string) (data changes : list item) (now : timestamp) :
  latest_of (map_to_list (files w)).*1 = Some latest →
  files w !! latest = Some (Json data) →
  let master_data := integrate_changes data changes in
  let name := master_filename (strftime_seconds now) (length master_data) in
  name ≠ latest →
  let run := integrate_changes_with_master changes now Completes w in
  files run.2 !! name = Some (Json master_data) ∧
  files run.2 !! latest = None ∧
  ∀ f, f ≠ name → f ≠ latest → files run.2 !! f = files w !! f.
Proof.
  intros Hlatest Hfile master_data name Hne run.
  unfold run, integrate_changes_with_master, try_except, mbind, io_bind,
    glob_master.
  rewrite Hlatest. unfold load_json. rewrite Hfile.
  fold master_data. fold name. simpl. unfold os_remove, set_files. simpl.
  rewrite lookup_insert_ne, Hfile by done. simpl. split_and!.
  - by rewrite lookup_delete_ne, lookup_insert_eq.
  - by rewrite lookup_delete_eq.
  - intros f Hf1 Hf2. by rewrite lookup_delete_ne, lookup_insert_ne.
Qed.

Lemma integrate_replaces_latest_only_witness :
  let old := master_filename (strftime_seconds t_33_1) 1 in
  let w := start {[ old := Json [rec "r1" 1 0] ]} in
  let name := master_filename (strftime_seconds t_34) 2 in
  latest_of (map_to_list (files w)).*1 = Some old ∧
  name ≠ old ∧
  files (integrate_changes_with_master [rec "r2" 0 1] t_34 Completes w).2
    !! name = Some (Json [rec "r1" 1 0; rec "r2" 0 1]).
Proof.
  set (old := master_filename (strftime_seconds t_33_1) 1).
  set (w := start {[ old := Json [rec "r1" 1 0] ]}).
  assert (latest_of (map_to_list (files w)).*1 = Some old) as H1
    by apply latest_of_singleton.
  assert (files w !! old = Some (Json [rec "r1" 1 0])) as H2
    by apply lookup_singleton_eq.
  assert (master_filename (strftime_seconds t_34)
            (length (integrate_changes [rec "r1" 1 0] [rec "r2" 0 1])) ≠ old)
    as H3 by (vm_compute; discriminate).
  split_and!; [exact H1|exact H3|].
  exact (proj1 (integrate_replaces_latest_only w old _ [rec "r2" 0 1] t_34
                  H1 H2 H3)).
Defined.

(** ** Snapshot names *)

Lemma string_app_inj_r (a b x : string) : a +:+ x = b +:+ x → a = b.
Proof.
  intros Heq. apply (string_app_inj_length a b x x); [|done].
  apply (f_equal String.length) in Heq. rewrite !string_length_app in Heq. lia.
Qed.

Lemma latest_of_pair (a b : string) :
  String.ltb a b = true →
  latest_of [a; b] = Some b ∧ latest_of [b; a] = Some b.
Proof.
  unfold String.ltb. intros Hlt.
  assert (String.compare a b = Lt) as Hab by (by destruct (String.compare a b)).
  assert (String.le a b) as Hle by (unfold String.le, String.leb; by rewrite Hab).
  assert (¬ String.le b a) as Hnle.
  { unfold String.le, String.leb.
    rewrite String.compare_antisym, Hab. simpl. by intros []. }
  unfold latest_of, sorted, merge_sort. simpl.
  rewrite (decide_True (P := String.le a b)) by done.
  rewrite (decide_False (P := String.le b a)) by done. done.
Qed.

(** X10.  Of two snapshot files stamped in different clock seconds, with
    or without the microsecond suffix and whatever their sizes,
    [sorted(files)[-1]] is the one of the later second, in whichever order
    the directory lists them. *)
Theorem latest_snapshot_across_seconds
    (t1 t2 : timestamp) (stamp1 stamp2 : string) (n1 n2 : nat) :
  valid_timestamp t1 → valid_timestamp t2 →
  lex_lt (second_key t1) (second_key t2) = true →
  stamp_of t1 stamp1 → stamp_of t2 stamp2 →
  latest_of [master_filename stamp1 n1; master_filename stamp2 n2]
    = Some (master_filename stamp2 n2) ∧
  latest_of [master_filename stamp2 n2; master_filename stamp1 n1]
    = Some (master_filename stamp2 n2).
Proof.
  intros Hv1 Hv2 Hlt Hs1 Hs2. apply latest_of_pair.
  exact (master_filename_chronological t1 t2 _ _ _ _ Hv1 Hv2 Hlt Hs1 Hs2).
Qed.

Lemma latest_snapshot_across_seconds_witness :
  valid_timestamp t_33_6 ∧ valid_timestamp t_34 ∧
  lex_lt (second_key t_33_6) (second_key t_34) = true ∧
  latest_of [master_filename (strftime_seconds t_34) 9;
             master_filename (strftime_micro t_33_6) 10]
  = Some (master_filename (strftime_seconds t_34) 9).
Proof.
  assert (valid_timestamp t_33_6) as H1 by (unfold valid_timestamp; simpl; lia).
  assert (valid_timestamp t_34) as H2 by (unfold valid_timestamp; simpl; lia).
  assert (lex_lt (second_key t_33_6) (second_key t_34) = true) as H3
    by reflexivity.
  split_and!; [exact H1|exact H2|exact H3|].
  exact (proj2 (latest_snapshot_across_seconds t_33_6 t_34
                  (strftime_micro t_33_6) (strftime_seconds t_34) 10 9
                  H1 H2 H3 (or_intror eq_refl) (or_introl eq_refl))).
Defined.

(** X11.  Two snapshot names built from second-resolution stamps are the
    same name exactly when the two clock readings fall in the same second
    and the two sizes are equal: this is when the existence test of
    [update_master_labels] (line 93) finds its name taken by an earlier
    snapshot. *)
Theorem master_filename_collision (t1 t2 : timestamp) (n1 n2 : nat) :
  valid_timestamp t1 → valid_timestamp t2 →
  master_filename (strftime_seconds t1) n1
  = master_filename (strftime_seconds t2) n2
  ↔ same_second t1 t2 ∧ n1 = n2.
Proof.
  intros Hv1 Hv2. unfold master_filename. split.
  - intros H. apply String.app_inj in H.
    apply string_app_inj_length in H as [Hstamp H];
      [|by rewrite !length_strftime_seconds].
    apply String.app_inj in H. apply string_app_inj_r in H.
    split; [by apply strftime_seconds_inj|]. by apply (inj pretty).
  - intros [Hsec ->]. by rewrite (strftime_seconds_same_second _ _ Hsec).
Qed.

Lemma master_filename_collision_witness :
  valid_timestamp t_33_1 ∧ valid_timestamp t_33_6 ∧
  same_second t_33_1 t_33_6 ∧
  master_filename (strftime_seconds t_33_1) 2
  = master_filename (strftime_seconds t_33_6) 2.
Proof.
  assert (valid_timestamp t_33_1) as H1 by (unfold valid_timestamp; simpl; lia).
  assert (valid_timestamp t_33_6) as H2 by (unfold valid_timestamp; simpl; lia).
  assert (same_second t_33_1 t_33_6) as H3 by (by repeat split).
  split_and!; [exact H1|exact H2|exact H3|].
  exact (proj2 (master_filename_collision t_33_1 t_33_6 2 2 H1 H2)
           (conj H3 eq_refl)).
Defined.

(** ** The training-example export *)

Section training_export.
Context (L : list string).
Implicit Types (S B O master : list item) (it r : item).

Lemma assistant_labels_complete it :
  is_Some (assistant_labels L it) ↔ complete L it.
Proof.
  unfold assistant_labels, complete. rewrite mapM_is_Some.
  apply Forall_proper; [|done]. intros k. simpl. apply fmap_is_Some.
Qed.

Lemma elem_of_replace_first master k c r :
  r ∈ replace_first master k c → r ∈ master ∨ r = c.
Proof.
  induction master as [|it master IH]; simpl; [by intros ?%elem_of_nil|].
  destruct (decide (item_id it = k)).
  - intros [->|?]%elem_of_cons; [by right|left; by right].
  - intros [->|Hr]%elem_of_cons; [left; by left|].
    destruct (IH Hr); [left; by right|by right].
Qed.

Lemma elem_of_integrate_changes S B r :
  r ∈ integrate_changes S B → r ∈ S ∨ r ∈ B.
Proof.
  unfold integrate_changes. generalize (lookup_by_id S). intros lk.
  induction B as [|b B IH] using rev_ind; simpl; [by left|].
  rewrite foldl_snoc. unfold integrate_step at 1.
  destruct (decide (is_Some _)).
  - intros [Hr| ->]%elem_of_replace_first.
    + destruct (IH Hr); [by left|right; apply elem_of_app; by left].
    + right. apply elem_of_app. right. by apply list_elem_of_singleton.
  - intros [Hr| ->%list_elem_of_singleton]%elem_of_app.
    + destruct (IH Hr); [by left|right; apply elem_of_app; by left].
    + right. apply elem_of_app. right. by apply list_elem_of_singleton.
Qed.

Lemma complete_expected_change (original : gmap string item) row r :
  expected_change L original row = Some r → complete L r.
Proof.
  unfold expected_change. destruct (original !! row_id row) as [o|]; [|done].
  simpl. destruct (decide _); [done|]. intros [= <-].
  apply Forall_forall. intros k Hk. simpl.
  rewrite lookup_label_map. by rewrite decide_True.
Qed.
End training_export.

(** X12.  The regeneration of the training-example export succeeds
    exactly when every record of the master has a value for every label of
    [ALL_LABELS] (a record without one makes [item[k]] raise), and then
    writes one line per record.  Both fold-in paths keep this: a master
    and a batch of complete records give a master of complete records; and
    every change record that [detect_changes_from_excel] returns is
    complete. *)
Theorem training_export_needs_complete_records (L : list string) :
  (∀ master, is_Some (generate_jsonl L master) ↔ Forall (complete L) master) ∧
  (∀ master out, generate_jsonl L master = Some out →
                 length out = length master) ∧
  (∀ S B, Forall (complete L) S → Forall (complete L) B →
          Forall (complete L) (merge_master (Some S) B) ∧
          Forall (complete L) (integrate_changes S B)) ∧
  (∀ O E changes, detect_changes_from_excel L O E = Ok changes →
                  Forall (complete L) changes).
Proof.
  split_and!.
  - intros master. unfold generate_jsonl. rewrite mapM_is_Some.
    apply Forall_proper; [|done]. intros it. simpl.
    rewrite fmap_is_Some. apply assistant_labels_complete.
  - intros master out Hout. unfold generate_jsonl in Hout.
    apply mapM_Some_1, Forall2_length in Hout. done.
  - intros S B HS HB. rewrite Forall_forall in HS, HB. split.
    + apply Forall_forall. intros r Hr. simpl in Hr.
      apply elem_of_dedupe, lookup_by_id_elem, elem_of_app in Hr as [?|?]; auto.
    + apply Forall_forall. intros r [?|?]%elem_of_integrate_changes; auto.
  - intros O E changes Hrun.
    pose proof (detect_changes_returns L O E changes Hrun) as HE.
    rewrite detect_changes_readable in Hrun by done. injection Hrun as <-.
    apply Forall_forall. intros r (row & _ & Hr)%list_elem_of_omap.
    by eapply complete_expected_change.
Qed.

Lemma training_export_needs_complete_records_witness :
  is_Some (generate_jsonl two_labels [rec "r1" 1 0; rec "r2" 0 1]) ∧
  generate_jsonl two_labels [rec "r1" 1 0; Item "r2" "t" ∅] = None ∧
  Forall (complete two_labels)
         (merge_master (Some [rec "r1" 1 0]) [rec "r2" 0 1]) ∧
  Forall (complete two_labels) [rec "r1" 0 0].
Proof.
  pose proof (training_export_needs_complete_records two_labels)
    as (Hiff & _ & Hfold & Hdetect).
  assert (∀ i a b, complete two_labels (rec i a b)) as Hrec.
  { intros i a b. repeat constructor; vm_compute; eauto. }
  split_and!.
  - apply Hiff. repeat (apply Forall_cons_2; [apply Hrec|]). apply Forall_nil_2.
  - apply eq_None_not_Some. intros Hsome%Hiff.
    apply Forall_cons in Hsome as [_ Hsome].
    apply Forall_cons in Hsome as [Hbad _].
    apply Forall_cons in Hbad as [[v Hv] _]. simpl in Hv.
    by rewrite lookup_empty in Hv.
  - apply Hfold; (apply Forall_cons_2; [apply Hrec|apply Forall_nil_2]).
  - apply (Hdetect [rec "r1" 1 0] [sheet_row "r1" (CellInt 0) (CellInt 0)]).
    vm_compute. reflexivity.
Defined.

(** ** The spreadsheet round trip *)

Section round_trip.
Context (L : list string).
Implicit Types (O changes : list item) (E : list excel_row) (row : excel_row)
  (original : gmap string item).

Lemma lookup_by_id_dedupe (l : list item) i :
  lookup_by_id (dedupe l) !! i = lookup_by_id l !! i.
Proof.
  destruct (lookup_by_id l !! i) as [r|] eqn:Hl.
  - pose proof (lookup_by_id_id _ _ _ Hl) as <-.
    apply lookup_by_id_unique; [apply NoDup_ids_dedupe|].
    by apply elem_of_dedupe.
  - apply lookup_by_id_None. rewrite ids_dedupe_elem.
    by apply lookup_by_id_None.
Qed.

Lemma item_id_expected_change original row r :
  expected_change L original row = Some r → item_id r = row_id row.
Proof.
  unfold expected_change. destruct (original !! row_id row); [|done].
  simpl. destruct (decide _); [done|]. by intros [= <-].
Qed.

Lemma ids_expected_changes_sublist original E :
  ids (omap (expected_change L original) E) `sublist_of` row_id <$> E.
Proof.
  induction E as [|row E IH]; [done|]. rewrite fmap_cons. simpl.
  destruct (expected_change L original row) as [r|] eqn:Hr.
  - unfold ids. rewrite fmap_cons, (item_id_expected_change _ _ _ Hr).
    by apply sublist_skip.
  - by apply sublist_cons.
Qed.

Lemma NoDup_fmap_inj_on {A B} (f : A → B) (l : list A) x y :
  NoDup (f <$> l) → x ∈ l → y ∈ l → f x = f y → x = y.
Proof.
  induction l as [|z l IH]; [by intros _ ?%elem_of_nil|].
  rewrite fmap_cons. intros [Hz Hl]%NoDup_cons.
  intros [->|Hx]%elem_of_cons [->|Hy]%elem_of_cons Heq; [done| | |by apply IH].
  - exfalso. apply Hz. rewrite Heq. apply list_elem_of_fmap. eauto.
  - exfalso. apply Hz. rewrite <-Heq. apply list_elem_of_fmap. eauto.
Qed.

Lemma lookup_expected_changes original E row :
  NoDup (row_id <$> E) → row ∈ E →
  lookup_by_id (omap (expected_change L original) E) !! row_id row
  = expected_change L original row.
Proof.
  intros Hnd Hrow.
  assert (NoDup (ids (omap (expected_change L original) E))) as Hnd'
    by (eapply sublist_NoDup; [|apply ids_expected_changes_sublist]; done).
  destruct (expected_change L original row) as [r|] eqn:Hr.
  - rewrite <-(item_id_expected_change _ _ _ Hr).
    apply lookup_by_id_unique; [done|]. apply list_elem_of_omap. eauto.
  - apply lookup_by_id_None.
    intros (r & Hid & (row' & Hrow' & Hr')%list_elem_of_omap)%list_elem_of_fmap.
    pose proof (item_id_expected_change _ _ _ Hr') as Hid'.
    assert (row' = row) as ->.
    { apply (NoDup_fmap_inj_on row_id E); [done..|]. congruence. }
    congruence.
Qed.

Lemma original_vector_expected_change original row r :
  expected_change L original row = Some r →
  original_vector L r = row_vector L row.
Proof.
  unfold expected_change. destruct (original !! row_id row); [|done].
  simpl. destruct (decide _); [done|]. intros [= <-].
  unfold original_vector, row_vector. apply list_fmap_ext.
  intros j c Hc%list_elem_of_lookup_2. unfold get_label. simpl.
  rewrite lookup_label_map. by rewrite decide_True.
Qed.
End round_trip.

(** X13.  Integrating the changes of a sheet settles the sheet: when the
    master has unique ids and the sheet has one row per id, and
    [detect_changes_from_excel] of the master and the sheet returns
    [changes], then after [integrate_changes_with_master] has put them
    into the master, the same sheet shows no change against the new
    master. *)
Theorem sheet_settles_after_integration (L : list string) (O : list item)
    (E : list excel_row) (changes : list item) :
  NoDup (ids O) → NoDup (row_id <$> E) →
  detect_changes_from_excel L O E = Ok changes →
  detect_changes_from_excel L (integrate_changes O changes) E = Ok [].
Proof.
  intros HO HE Hrun.
  pose proof (detect_changes_returns L O E changes Hrun) as Hread.
  rewrite detect_changes_readable in Hrun by done. injection Hrun as <-.
  set (changes := omap (expected_change L (lookup_by_id O)) E).
  assert (NoDup (ids changes)) as Hch
    by (eapply sublist_NoDup; [|apply ids_expected_changes_sublist]; done).
  assert (integrate_changes O changes = dedupe (O ++ changes)) as ->.
  { apply fold_in_paths_agree_unique; done. }
  assert (∀ row, row ∈ E →
            lookup_by_id (dedupe (O ++ changes)) !! row_id row =
            match expected_change L (lookup_by_id O) row with
            | Some r => Some r
            | None => lookup_by_id O !! row_id row
            end) as Hlk.
  { intros row Hrow. rewrite lookup_by_id_dedupe, lookup_by_id_app.
    unfold changes. by rewrite lookup_expected_changes. }
  rewrite Forall_forall in Hread.
  rewrite detect_changes_readable.
  - f_equal. apply elem_of_nil_inv. intros r Hr.
    apply elem_of_expected_changes in Hr as (row & o & Hrow & Ho & Hne & _).
    rewrite Hlk in Ho by done. apply Hne.
    destruct (expected_change L (lookup_by_id O) row) as [r'|] eqn:Hr'.
    + injection Ho as <-. symmetry.
      by eapply original_vector_expected_change.
    + unfold expected_change in Hr'. rewrite Ho in Hr'. simpl in Hr'.
      by destruct (decide (row_vector L row = original_vector L o)).
  - apply Forall_forall. intros row Hrow Hsome. apply Hread; [done|].
    rewrite Hlk in Hsome by done.
    destruct (expected_change L (lookup_by_id O) row) as [r'|] eqn:Hr';
      [|done].
    unfold expected_change in Hr'.
    destruct (lookup_by_id O !! row_id row); [by eexists|done].
Qed.

Lemma sheet_settles_after_integration_witness :
  let O := [rec "r1" 1 0; rec "r2" 0 1] in
  let E := [sheet_row "r2" (CellInt 1) (CellInt 1);
            sheet_row "r1" (CellInt 1) CellNaN] in
  NoDup (ids O) ∧ NoDup (row_id <$> E) ∧
  detect_changes_from_excel two_labels O E = Ok [rec "r2" 1 1] ∧
  detect_changes_from_excel two_labels (integrate_changes O [rec "r2" 1 1]) E
  = Ok [].
Proof.
  set (O := [rec "r1" 1 0; rec "r2" 0 1]).
  set (E := [sheet_row "r2" (CellInt 1) (CellInt 1);
             sheet_row "r1" (CellInt 1) CellNaN]).
  assert (NoDup (ids O)) as HO by compute_done.
  assert (NoDup (row_id <$> E)) as HE by compute_done.
  assert (detect_changes_from_excel two_labels O E = Ok [rec "r2" 1 1]) as Hrun
    by (vm_compute; reflexivity).
  split_and!; [exact HO|exact HE|exact Hrun|].
  exact (sheet_settles_after_integration two_labels O E _ HO HE Hrun).
Defined.

Lemma try_except_returns {A} (body : io A) (fallback : A) (w : world) :
  ∃ a, (try_except body fallback w).1 = Ok a.
Proof.
  unfold try_except. destruct (body w) as [[a|e] w']; simpl; eauto.
Qed.

Lemma integrate_changes_with_master_returns (changes : list item)
    (now : timestamp) (d : disk) (w : world) :
  ∃ path, (integrate_changes_with_master changes now d w).1 = Ok path.
Proof. apply try_except_returns. Qed.

(** X14.  [process_excel_changes] never raises.  It returns [(None, None)]
    and leaves the master directory as it was when the sheet cannot be
    read, when it holds no change, or when the changes file cannot be
    written; with [integrate=False] it never touches the master directory;
    otherwise it returns the name of the changes file, and the master
    directory is as [integrate_changes_with_master] of the changes leaves
    it. *)
Theorem process_excel_changes_outcomes (L : list string) (O : list item)
    (E : list excel_row) (integrate : bool) (now1 now2 : timestamp)
    (d1 d2 : disk) (w : world) :
  let run := process_excel_changes L O E integrate now1 now2 d1 d2 w in
  (∃ r, run.1 = Ok r) ∧
  ((∀ changes, detect_changes_from_excel L O E = Ok changes → changes = []) →
   run = (Ok (None, None), w)) ∧
  (d1 ≠ Completes → run = (Ok (None, None), w)) ∧
  (integrate = false → run.2 = w) ∧
  (∀ changes,
     detect_changes_from_excel L O E = Ok changes → changes ≠ [] →
     d1 = Completes → integrate = true →
     (∃ master_path,
        run.1 = Ok (Some (changes_filename now1 (length changes)),
                    master_path)) ∧
     run.2 = (integrate_changes_with_master changes now2 d2 w).2).
Proof.
  intros run. unfold run, process_excel_changes, try_except.
  destruct (detect_changes_from_excel L O E) as [changes|e] eqn:Hdet.
  - destruct (decide (changes = [])) as [->|Hne].
    + split_and!; try done; try (by eexists).
      intros changes [= <-] Hne. done.
    + unfold mbind, io_bind, save_manual_changes.
      destruct d1; simpl.
      * pose proof (integrate_changes_with_master_returns changes now2 d2 w)
          as [path Hpath].
        destruct integrate; simpl.
        -- destruct (integrate_changes_with_master changes now2 d2 w)
             as [[path'|e'] w'] eqn:Hint; simpl in *; [|done].
           split_and!; try done; try (by eexists);
             try (by intros H; destruct Hne; eauto).
           intros changes' [= <-] _ _ _.
           split; [by exists path'|by rewrite Hint].
        -- split_and!; try done; try (by eexists);
             by intros H; destruct Hne; eauto.
      * split_and!; try done; try (by eexists);
          try (by intros H; destruct Hne; eauto); by destruct integrate.
      * split_and!; try done; try (by eexists);
          try (by intros H; destruct Hne; eauto); by destruct integrate.
  - simpl. split_and!; try done. by eexists.
Qed.

Lemma process_excel_changes_outcomes_witness :
  let O := [rec "r1" 1 0; rec "r2" 0 1] in
  let w := start {[ master_filename (strftime_seconds t_33_1) 2 := Json O ]} in
  let unedited := export_rows two_labels O in
  let edited := [sheet_row "r2" (CellInt 1) (CellInt 1)] in
  process_excel_changes two_labels O unedited true t_34 t_34
    Completes Completes w = (Ok (None, None), w) ∧
  process_excel_changes two_labels O edited true t_34 t_34
    FailsAtOpen Completes w = (Ok (None, None), w) ∧
  files (process_excel_changes two_labels O edited true t_34 t_34
           Completes Completes w).2
  = {[ master_filename (strftime_seconds t_34) 2
       := Json [rec "r1" 1 0; rec "r2" 1 1] ]}.
Proof.
  set (O := [rec "r1" 1 0; rec "r2" 0 1]).
  set (w := start {[ master_filename (strftime_seconds t_33_1) 2 := Json O ]}).
  split_and!.
  - destruct (process_excel_changes_outcomes two_labels O
                (export_rows two_labels O) true t_34 t_34
                Completes Completes w) as (_ & Hnone & _).
    apply Hnone. intros changes Hdet. vm_compute in Hdet.
    by injection Hdet as <-.
  - destruct (process_excel_changes_outcomes two_labels O
                [sheet_row "r2" (CellInt 1) (CellInt 1)] true t_34 t_34
                FailsAtOpen Completes w) as (_ & _ & Hfail & _).
    by apply Hfail.
  - destruct (process_excel_changes_outcomes two_labels O
                [sheet_row "r2" (CellInt 1) (CellInt 1)] true t_34 t_34
                Completes Completes w) as (_ & _ & _ & _ & Hint).
    destruct (Hint [rec "r2" 1 1]) as [_ Hrun];
      [vm_compute; reflexivity|done..|].
    etrans; [exact (f_equal files Hrun)|].
    apply map_eq. intros f. vm_compute. reflexivity.
Defined.

(** ** The few-shot examples *)

Lemma py_index_neg (m : Z) (len : nat) :
  (0 < m)%Z → py_index (- m) len = len - Z.to_nat m.
Proof. intros Hm. unfold py_index. rewrite (proj2 (Z.ltb_lt _ _)); lia. Qed.

(** X15.  The examples put in a prompt: for [max_examples >= 1] they are
    the last [min(max_examples, n)] records of the master, in order; for
    [max_examples = 0] they are all the records, not none (the slice
    [[-0:]] is the whole list); for a negative [max_examples] the first
    [-max_examples] records are dropped. *)
Theorem limit_examples_keeps_last (max_examples : Z) (master : list item) :
  ((0 < max_examples)%Z →
     limit_examples max_examples master
       = drop (length master - Z.to_nat max_examples) master ∧
     length (limit_examples max_examples master)
       = Nat.min (Z.to_nat max_examples) (length master)) ∧
  (max_examples = 0%Z → limit_examples max_examples master = master) ∧
  ((max_examples < 0)%Z →
     limit_examples max_examples master
       = drop (Z.to_nat (- max_examples)) master).
Proof.
  unfold limit_examples, slice_from. split_and!.
  - intros Hm. destruct (max_examples <? _)%Z eqn:Hlt.
    + apply Z.ltb_lt in Hlt. rewrite py_index_neg by done.
      split; [done|]. rewrite length_drop. lia.
    + apply Z.ltb_ge in Hlt.
      replace (length master - Z.to_nat max_examples) with 0 by lia.
      split; [done|lia].
  - intros ->. destruct (0 <? _)%Z; reflexivity.
  - intros Hm. rewrite (proj2 (Z.ltb_lt _ _)) by lia.
    unfold py_index. rewrite (proj2 (Z.ltb_ge _ _)) by lia.
    destruct (decide (Z.to_nat (- max_examples) <= length master)%nat).
    + by rewrite Nat.min_l.
    + rewrite Nat.min_r by lia. rewrite !drop_ge; [done|lia|lia].
Qed.

Lemma limit_examples_keeps_last_witness :
  let master := [rec "r1" 1 0; rec "r2" 0 1; rec "r3" 1 1] in
  limit_examples 2 master = [rec "r2" 0 1; rec "r3" 1 1] ∧
  limit_examples 0 master = master ∧
  limit_examples (-1) master = [rec "r2" 0 1; rec "r3" 1 1].
Proof.
  set (master := [rec "r1" 1 0; rec "r2" 0 1; rec "r3" 1 1]).
  destruct (limit_examples_keeps_last 2 master) as ([H2 _]%(λ H, H eq_refl) & _).
  destruct (limit_examples_keeps_last 0 master) as (_ & H0 & _).
  destruct (limit_examples_keeps_last (-1) master) as (_ & _ & Hneg).
  split_and!.
  - rewrite H2. reflexivity.
  - by apply H0.
  - rewrite Hneg by done. reflexivity.
Defined.

Lemma limit_examples_suffix (max_examples : Z) (master : list item) :
  limit_examples max_examples master `suffix_of` master.
Proof.
  unfold limit_examples, slice_from. destruct (_ <? _)%Z; [|done].
  apply suffix_drop.
Qed.

(** X16.  The examples of a leave-one-out prompt never hold the excluded
    id, are records of the master in the master's order, and are the
    examples of the ordinary prompt when the master does not have the
    excluded id. *)
Theorem leave_one_out_excludes_the_id (excluded_id : string)
    (max_examples : Z) (master : list item) :
  (∀ ex, ex ∈ leave_one_out_examples excluded_id max_examples master →
         item_id ex ≠ excluded_id ∧ ex ∈ master) ∧
  leave_one_out_examples excluded_id max_examples master `sublist_of` master ∧
  (excluded_id ∉ ids master →
   leave_one_out_examples excluded_id max_examples master
   = limit_examples max_examples master).
Proof.
  unfold leave_one_out_examples.
  pose proof (limit_examples_suffix max_examples
                (filter (λ ex, item_id ex ≠ excluded_id) master)) as Hsuf.
  split_and!.
  - intros ex Hex. destruct Hsuf as [k Hk].
    assert (ex ∈ filter (λ ex, item_id ex ≠ excluded_id) master) as Hin
      by (rewrite Hk; apply elem_of_app; by right).
    by apply list_elem_of_filter in Hin.
  - trans (filter (λ ex, item_id ex ≠ excluded_id) master);
      [|apply sublist_filter].
    unfold limit_examples, slice_from. destruct (_ <? _)%Z; [|done].
    apply sublist_drop.
  - intros Hnot. f_equal. clear Hsuf.
    induction master as [|it master IH]; [done|].
    unfold ids in Hnot. rewrite fmap_cons in Hnot.
    apply not_elem_of_cons in Hnot as [Hne Hnot].
    rewrite filter_cons_True by (intros Heq; by destruct Hne).
    f_equal. by apply IH.
Qed.

Lemma leave_one_out_excludes_the_id_witness :
  let master := [rec "r1" 1 0; rec "r2" 0 1; rec "r3" 1 1] in
  leave_one_out_examples "r3" 2 master = [rec "r1" 1 0; rec "r2" 0 1] ∧
  ("r9" ∉ ids master) ∧
  leave_one_out_examples "r9" 2 master = limit_examples 2 master.
Proof.
  set (master := [rec "r1" 1 0; rec "r2" 0 1; rec "r3" 1 1]).
  assert ("r9" ∉ ids master) as Hnot by compute_done.
  split_and!; [vm_compute; reflexivity|exact Hnot|].
  exact (proj2 (proj2 (leave_one_out_excludes_the_id "r9" 2 master)) Hnot).
Defined.

(** ** Cleaning the batches directory *)

Section cleanup.
Implicit Types (sub a b f : string) (names : list string).

Lemma prefix_app sub b : String.prefix sub (sub +:+ b) = true.
Proof.
  induction sub as [|c sub IH]; [by destruct b|].
  change (String.prefix (String c sub) (String c (sub +:+ b)) = true).
  simpl. by destruct (ascii_dec c c).
Qed.

Lemma contains_prefix sub b : String.prefix sub b = true → contains sub b = true.
Proof. intros H. destruct b; cbn [contains]; by rewrite H. Qed.

Lemma contains_app_r sub a b :
  contains sub b = true → contains sub (a +:+ b) = true.
Proof.
  intros H. induction a as [|c a IH]; [done|].
  change (contains sub (String c (a +:+ b)) = true).
  cbn [contains]. rewrite IH. apply orb_true_r.
Qed.

Lemma sorted_perm names : sorted names ≡ₚ names.
Proof. apply merge_sort_Permutation. Qed.

Lemma sorted_strongly names : StronglySorted String.le (sorted names).
Proof. apply StronglySorted_merge_sort; apply _. Qed.

(** What [cleanup_old_files] removes is an initial part of the sorted
    names. *)
Lemma cleanup_old_files_take (keep_latest : Z) names :
  let to_label_files := filter (λ f, is_to_label_file f) names in
  ∃ m, cleanup_old_files keep_latest (Some names)
       = take m (sorted to_label_files) ∧
    (keep_latest = 0%Z → m = 0) ∧
    ((0 < keep_latest < Z.of_nat (length to_label_files))%Z →
       m = length to_label_files - Z.to_nat keep_latest) ∧
    ((keep_latest < 0)%Z → m = Z.to_nat (- keep_latest)).
Proof.
  intros tl. unfold cleanup_old_files. fold tl.
  destruct (Z.of_nat (length tl) <=? keep_latest)%Z eqn:Hle.
  - apply Z.leb_le in Hle. exists 0. split_and!; [done|lia..].
  - apply Z.leb_gt in Hle. unfold slice_to, py_index.
    rewrite (Permutation_length (sorted_perm tl)).
    destruct (- keep_latest <? 0)%Z eqn:Hneg.
    + apply Z.ltb_lt in Hneg. eexists. split; [done|]. split_and!; lia.
    + apply Z.ltb_ge in Hneg.
      exists (Z.to_nat (- keep_latest)). split_and!; [|lia..].
      destruct (decide (Z.to_nat (- keep_latest) <= length tl)%nat).
      * by rewrite Nat.min_l.
      * rewrite Nat.min_r by lia.
        rewrite !take_ge; [done|..];
          rewrite (Permutation_length (sorted_perm tl)); lia.
Qed.
End cleanup.

(** X17.  [cleanup_old_files] removes only names of the listing that match
    its pattern, and what it removes sorts at or below everything it keeps:
    removed and kept names together are the matching names.  For
    [0 < keep_latest < number of matching names] it keeps exactly
    [keep_latest] names.  With [keep_latest = 0] it removes nothing (the
    slice [[:-0]] is empty), and with a negative [keep_latest] it removes
    the [-keep_latest] smallest names; a directory that does not exist
    gives no removal. *)
Theorem cleanup_old_files_keeps_latest (keep_latest : Z) (names : list string) :
  let to_label_files := filter (λ f, is_to_label_file f) names in
  let deleted := cleanup_old_files keep_latest (Some names) in
  (∀ f, f ∈ deleted → f ∈ names ∧ is_to_label_file f) ∧
  (∃ kept, deleted ++ kept ≡ₚ to_label_files ∧
     (∀ f g, f ∈ deleted → g ∈ kept → String.le f g) ∧
     ((0 < keep_latest < Z.of_nat (length to_label_files))%Z →
        length kept = Z.to_nat keep_latest)) ∧
  (keep_latest = 0%Z → deleted = []) ∧
  ((keep_latest < 0)%Z →
     length deleted
     = Nat.min (Z.to_nat (- keep_latest)) (length to_label_files)) ∧
  cleanup_old_files keep_latest None = [].
Proof.
  intros tl deleted.
  destruct (cleanup_old_files_take keep_latest names)
    as (m & Htake & Hzero & Hpos & Hneg).
  fold tl in Htake, Hpos. fold deleted in Htake.
  pose proof (sorted_strongly tl) as Hsorted.
  rewrite <-(take_drop m (sorted tl)), <-Htake in Hsorted.
  apply StronglySorted_app in Hsorted as (Hcross & _ & _).
  split_and!.
  - intros f Hf.
    assert (f ∈ tl) as Hin.
    { rewrite <-(sorted_perm tl), <-(take_drop m (sorted tl)), <-Htake.
      apply elem_of_app. by left. }
    by apply list_elem_of_filter in Hin as [? ?].
  - exists (drop m (sorted tl)). split_and!.
    + by rewrite Htake, take_drop, sorted_perm.
    + exact Hcross.
    + intros Hk. rewrite length_drop, (Permutation_length (sorted_perm tl)).
      rewrite (Hpos Hk). lia.
  - intros Hk. by rewrite Htake, (Hzero Hk).
  - intros Hk.
    by rewrite Htake, length_take, (Permutation_length (sorted_perm tl)),
      (Hneg Hk).
  - done.
Qed.

Lemma cleanup_old_files_keeps_latest_witness :
  let names := ["MANUAL_LABEL_A_AT-1"; "notes.txt"; "MANUAL_LABEL_A_AT-3";
                "MANUAL_LABEL_A_AT-2"] in
  cleanup_old_files 1 (Some names)
    = ["MANUAL_LABEL_A_AT-1"; "MANUAL_LABEL_A_AT-2"] ∧
  is_to_label_file "MANUAL_LABEL_A_AT-1" ∧
  cleanup_old_files 0 (Some names) = [] ∧
  length (cleanup_old_files (-1) (Some names)) = 1.
Proof.
  set (names := ["MANUAL_LABEL_A_AT-1"; "notes.txt"; "MANUAL_LABEL_A_AT-3";
                 "MANUAL_LABEL_A_AT-2"]).
  assert (cleanup_old_files 1 (Some names)
          = ["MANUAL_LABEL_A_AT-1"; "MANUAL_LABEL_A_AT-2"]) as Heq
    by (vm_compute; reflexivity).
  destruct (cleanup_old_files_keeps_latest 1 names) as (Hin & _).
  destruct (cleanup_old_files_keeps_latest 0 names) as (_ & _ & Hzero & _).
  destruct (cleanup_old_files_keeps_latest (-1) names) as (_ & _ & _ & Hneg & _).
  split_and!.
  - exact Heq.
  - apply Hin. rewrite Heq. apply elem_of_cons. by left.
  - by apply Hzero.
  - rewrite Hneg by done. reflexivity.
Defined.

(** X18.  Every name that [process_batch_for_labeling] gives a batch file
    and every name that [save_manual_changes] gives a changes file matches
    the pattern of [cleanup_old_files], whatever the method, clock reading,
    sizes and model name: [cleanup_old_files] counts and removes both kinds
    of file.  No name of a master snapshot matches it. *)
Theorem cleanup_old_files_pattern :
  (∀ selection_method now max_examples batch_size model,
     is_to_label_file
       (batch_filename selection_method now max_examples batch_size model)
     = true) ∧
  (∀ now sample_size, is_to_label_file (changes_filename now sample_size) = true) ∧
  (∀ stamp total_samples,
     is_to_label_file (master_filename stamp total_samples) = false).
Proof.
  unfold is_to_label_file. split_and!.
  - intros method now max_examples batch_size model. unfold batch_filename.
    rewrite prefix_app, andb_true_l.
    do 2 apply contains_app_r. apply contains_prefix, prefix_app.
  - intros now n. unfold changes_filename.
    change ("MANUAL_LABEL_EXCEL_AT-" +:+ strftime_seconds now +:+
            "_SAMPLE_SIZE_" +:+ pretty n +:+ ".json")
      with ("MANUAL_LABEL_" +:+ "EXCEL" +:+ "_AT-" +:+ strftime_seconds now +:+
            "_SAMPLE_SIZE_" +:+ pretty n +:+ ".json").
    rewrite prefix_app, andb_true_l.
    do 2 apply contains_app_r. apply contains_prefix, prefix_app.
  - intros stamp n. reflexivity.
Qed.

(** ** Selecting the shortest texts *)

Section shortest.
Implicit Types (rows : list df_row) (unl : frame) (s : list (nat * nat)).








End shortest.


